(** * PatchMaker: the patch graph of direct/src/p3d/PatchMaker.py

    A shallow embedding of the Python classes [PatchMaker],
    [PatchMaker.PackageVersion], [PatchMaker.Patchfile] and
    [PatchMaker.Package].  Python objects live in an object store and are
    named by their index ([nat]); object identity ([is]) is equality of
    indices.  Attributes that Python initialises to [None] are [option]s.
    External collaborators (the delta engine, the stream compressor, the
    file system, Python's [int]) are the fields of the class [Externals]. *)

From Stdlib Require Import ZArith Lia String Ascii DecimalString.
From stdpp Require Import base option list gmap strings.

Set Default Proof Using "Type".

(** ** Results of running Python code *)

Inductive exn : Type :=
  | AttributeError   (* attribute access on None *)
  | AssertionError   (* a failed assert statement *)
  | TypeError        (* None where a string is required *)
  | ValueError       (* int() on a string that is no integer *)
  | Exception (msg : string)   (* raise Exception(msg) *)
  | DanglingRef.     (* an index outside the object store; Python references
                        are never dangling, the store of the model can be *)

Inductive result (A : Type) : Type :=
  | Ok (a : A)
  | Raise (e : exn)
  | OutOfFuel.
Arguments Ok {A} a.
Arguments Raise {A} e.
Arguments OutOfFuel {A}.

Definition rbind {A B} (r : result A) (k : A → result B) : result B :=
  match r with
  | Ok a => k a
  | Raise e => Raise e
  | OutOfFuel => OutOfFuel
  end.

Notation "'let?' x := c 'in' k" := (rbind c (fun x => k))
  (at level 10, x pattern, c at level 100, k at level 200).

(** Reading an attribute of an object that may be [None]. *)
Definition attr {A} (o : option A) : result A :=
  match o with
  | Some a => Ok a
  | None => Raise AttributeError
  end.

(** ** File names and FileSpec *)

(** [panda3d.core.Filename] is outside the repository.  [Path d b] is
    [Filename(d, b)]; [Temporary p n] is the [n]-th name handed out by
    [Filename.temporary('', p)], which has the empty suffix. *)
Inductive Filename : Type :=
  | Path (dirname basename : string)
  | Temporary (prefix : string) (n : nat).

#[export] Instance Filename_eq_dec : EqDecision Filename.
Proof. solve_decision. Defined.

#[export] Instance Filename_countable : Countable Filename.
Proof.
  refine (inj_countable'
    (λ f, match f with
          | Path d b => inl (d, b)
          | Temporary p n => inr (p, n)
          end)
    (λ x, match x with
          | inl (d, b) => Path d b
          | inr (p, n) => Temporary p n
          end) _).
  by intros [].
Defined.

(** The text after the last dot of the basename; empty when there is no dot. *)
Fixpoint extension_from (s : string) (acc : option string) : option string :=
  match s with
  | EmptyString => acc
  | String c s' =>
      if Ascii.eqb c "/" then extension_from s' None
      else if Ascii.eqb c "." then extension_from s' (Some s')
      else extension_from s' acc
  end.

Definition getExtension (f : Filename) : string :=
  match f with
  | Path _ b => default EmptyString (extension_from b None)
  | Temporary _ _ => EmptyString
  end.

(** Modelled from the spec: [FileSpec] (direct/src/p3d/FileSpec.py is not
    part of the sources): the triple (filename, size, hash), where the hash
    identifies the contents. *)
Record FileSpec : Type := mkFileSpec {
  filename : string;
  size : Z;
  hash : string;
}.

#[export] Instance FileSpec_eq_dec : EqDecision FileSpec.
Proof. solve_decision. Defined.

(** ** The three classes *)

Record PackageVersion : Type := mkPackageVersion {
  pv_packageName : option string;
  pv_platform : option string;
  pv_version : option string;
  pv_hostUrl : option string;
  pv_file : FileSpec;
  printName : option string;
  packageCurrent : option nat;   (* a Package *)
  packageBase : option nat;
  packageTop : option nat;
  fromPatches : list nat;        (* Patchfile objects that produce this version *)
  toPatches : list nat;          (* Patchfile objects that start from it *)
  tempFile : option Filename;
}.

Record Patchfile : Type := mkPatchfile {
  pf_package : nat;              (* a Package *)
  pf_packageName : option string;
  pf_platform : option string;
  pf_version : option string;
  pf_hostUrl : option string;
  pf_file : option FileSpec;
  sourceFile : option FileSpec;
  targetFile : option FileSpec;
  fromPv : option nat;           (* a PackageVersion *)
  toPv : option nat;
}.

(** The key of the interning table: the coordinates and the hash. *)
Abbreviation Key :=
  (option string * option string * option string * option string * string)%type.

(** Modelled from the spec: the descriptor document (the XML reader is
    outside the repository): the attributes and children of the <package>
    element that PatchMaker reads and writes. *)
Record PatchXml : Type := mkPatchXml {
  x_name : option string;
  x_platform : option string;
  x_version : option string;
  x_host : option string;
  x_file : FileSpec;
  x_source : option FileSpec;
  x_target : option FileSpec;
}.

Record Descriptor : Type := mkDescriptor {
  d_name : option string;
  d_platform : option string;
  d_version : option string;
  d_seq : Z;
  d_patch_version : option string;
  d_last_patch_version : option string;
  d_uncompressed_archive : option FileSpec;
  d_compressed_archive : option FileSpec;
  d_top_version : option FileSpec;
  d_base_version : option FileSpec;
  d_patch : list PatchXml;
}.

(** Modelled from the spec: the <package> entry of the contents manifest:
    the hash of the descriptor, of its import sibling, and the mirrored seq. *)
Record ContentsEntry : Type := mkContentsEntry {
  ce_desc : option FileSpec;
  ce_import : option (option FileSpec);   (* the <import> child, when present *)
  ce_seq : option Z;
}.

Record Package : Type := mkPackage {
  packageDir : string;
  packageDesc : string;
  contentsDocPackage : option ContentsEntry;
  patchVersion : Z;
  currentPv : option nat;
  basePv : option nat;
  topPv : option nat;
  pkg_packageName : option string;
  pkg_platform : option string;
  pkg_version : option string;
  pkg_hostUrl : option string;
  currentFile : option FileSpec;
  baseFile : option FileSpec;
  topFile : option FileSpec;
  compressedFilename : option string;
  doc : option Descriptor;       (* None: unreadable, or no <package> element *)
  anyChanges : bool;
  patches : list nat;            (* Patchfile objects *)
}.

(** ** The session state: PatchMaker, the object store and the world *)

Inductive Event : Type :=
  | EvDecompress (src dst : Filename)
  | EvApply (patch orig dst : Filename)
  | EvBuild (orig new patch : Filename)
  | EvCompress (src dst : Filename)
  | EvUnlink (f : Filename)
  | EvRename (src dst : Filename)
  | EvCopy (src dst : Filename)
  | EvSaveDesc (f : Filename) (d : Descriptor)
  | EvSaveImport (f : Filename) (seq : Z).

Record State : Type := mkState {
  (* PatchMaker *)
  installDir : string;
  packageVersions : gmap Key nat;
  packages : list nat;
  patchFilenames : gmap string nat;
  (* the object store *)
  pvs : list PackageVersion;
  pfs : list Patchfile;
  pkgs : list Package;
  (* the world *)
  fs : gset Filename;            (* the files that exist *)
  tempCount : nat;               (* names handed out by Filename.temporary *)
  trace : list Event;            (* calls of the external collaborators *)
}.

Definition set_packageVersions (f : gmap Key nat → gmap Key nat) (st : State) : State :=
  mkState (installDir st) (f (packageVersions st)) (packages st) (patchFilenames st)
          (pvs st) (pfs st) (pkgs st) (fs st) (tempCount st) (trace st).
Definition set_patchFilenames (f : gmap string nat → gmap string nat) (st : State) : State :=
  mkState (installDir st) (packageVersions st) (packages st) (f (patchFilenames st))
          (pvs st) (pfs st) (pkgs st) (fs st) (tempCount st) (trace st).
Definition set_pvs (f : list PackageVersion → list PackageVersion) (st : State) : State :=
  mkState (installDir st) (packageVersions st) (packages st) (patchFilenames st)
          (f (pvs st)) (pfs st) (pkgs st) (fs st) (tempCount st) (trace st).
Definition set_pfs (f : list Patchfile → list Patchfile) (st : State) : State :=
  mkState (installDir st) (packageVersions st) (packages st) (patchFilenames st)
          (pvs st) (f (pfs st)) (pkgs st) (fs st) (tempCount st) (trace st).
Definition set_pkgs (f : list Package → list Package) (st : State) : State :=
  mkState (installDir st) (packageVersions st) (packages st) (patchFilenames st)
          (pvs st) (pfs st) (f (pkgs st)) (fs st) (tempCount st) (trace st).
Definition set_fs (f : gset Filename → gset Filename) (st : State) : State :=
  mkState (installDir st) (packageVersions st) (packages st) (patchFilenames st)
          (pvs st) (pfs st) (pkgs st) (f (fs st)) (tempCount st) (trace st).
Definition set_tempCount (f : nat → nat) (st : State) : State :=
  mkState (installDir st) (packageVersions st) (packages st) (patchFilenames st)
          (pvs st) (pfs st) (pkgs st) (fs st) (f (tempCount st)) (trace st).
Definition set_trace (f : list Event → list Event) (st : State) : State :=
  mkState (installDir st) (packageVersions st) (packages st) (patchFilenames st)
          (pvs st) (pfs st) (pkgs st) (fs st) (tempCount st) (f (trace st)).

Definition lookup_pv (st : State) (r : nat) : result PackageVersion :=
  match pvs st !! r with Some pv => Ok pv | None => Raise DanglingRef end.
Definition lookup_pf (st : State) (r : nat) : result Patchfile :=
  match pfs st !! r with Some pf => Ok pf | None => Raise DanglingRef end.
Definition lookup_pkg (st : State) (r : nat) : result Package :=
  match pkgs st !! r with Some p => Ok p | None => Raise DanglingRef end.

(** ** PackageVersion.getPatchChain *)

(** [bestPatchChain is None or len(patchChain) < len(bestPatchChain)] *)
Definition keepShorter {A} (best : option (list A)) (cand : list A) : option (list A) :=
  match best with
  | None => Some cand
  | Some b => if decide (length cand < length b) then Some cand else Some b
  end.

(** The loop [for patchfile in self.fromPatches]; [rec fromPv] is the
    recursive call [fromPv.getPatchChain(startPv, alreadyVisited)]. *)
Fixpoint forPatchChain (st : State) (rec : nat → result (option (list nat)))
    (l : list nat) (bestPatchChain : option (list nat)) : result (option (list nat)) :=
  match l with
  | [] => Ok bestPatchChain
  | patchfile :: l' =>
      let? pf := lookup_pf st patchfile in
      let? fromPv := attr (fromPv pf) in
      let? patchChain := rec fromPv in
      match patchChain with
      | Some patchChain =>
          forPatchChain st rec l' (keepShorter bestPatchChain (patchChain ++ [patchfile]))
      | None => forPatchChain st rec l' bestPatchChain
      end
  end.

Fixpoint getPatchChain_rec (fuel : nat) (st : State) (self startPv : nat)
    (alreadyVisited : list nat) : result (option (list nat)) :=
  match fuel with
  | O => OutOfFuel
  | S fuel' =>
      if decide (self = startPv) then Ok (Some [])
      else if decide (self ∈ alreadyVisited) then Ok None
      else
        let alreadyVisited := alreadyVisited ++ [self] in
        let? pv := lookup_pv st self in
        forPatchChain st
          (λ fromPv, getPatchChain_rec fuel' st fromPv startPv alreadyVisited)
          (fromPatches pv) None
  end.

(** [self.getPatchChain(startPv)], with the default [alreadyVisited = []].
    The recursion appends a node that was not yet visited at every level, so
    its depth is at most the number of PackageVersion objects plus one. *)
Definition getPatchChain (st : State) (self startPv : nat) : result (option (list nat)) :=
  getPatchChain_rec (S (length (pvs st))) st self startPv [].

(** ** PackageVersion.getRecreateFilePlan *)

(** The tuple (startFile, startPv, plan); (None, None, None) is [None]. *)
Abbreviation Plan := (Filename * nat * list (nat * nat))%type.

(** [bestPlan is None or len(plan) < len(bestPlan)] *)
Definition keepShorterPlan (best : option Plan) (cand : Plan) : option Plan :=
  match best with
  | None => Some cand
  | Some b => if decide (length cand.2 < length b.2) then Some cand else Some b
  end.

Fixpoint forRecreateFilePlan (st : State) (rec : nat → result (option Plan))
    (self : nat) (l : list nat) (best : option Plan) : result (option Plan) :=
  match l with
  | [] => Ok best
  | patchfile :: l' =>
      let? pf := lookup_pf st patchfile in
      let? fromPv := attr (fromPv pf) in
      let? r := rec fromPv in
      match r with
      | Some (startFile, startPv, plan) =>
          forRecreateFilePlan st rec self l'
            (keepShorterPlan best (startFile, startPv, plan ++ [(patchfile, self)]))
      | None => forRecreateFilePlan st rec self l' best
      end
  end.

Fixpoint getRecreateFilePlan_rec (fuel : nat) (st : State) (self : nat)
    (alreadyVisited : list nat) : result (option Plan) :=
  match fuel with
  | O => OutOfFuel
  | S fuel' =>
      let? pv := lookup_pv st self in
      match tempFile pv with
      | Some t => Ok (Some (t, self, []))
      | None =>
          if decide (self ∈ alreadyVisited) then Ok None
          else
            let alreadyVisited := alreadyVisited ++ [self] in
            match packageCurrent pv, packageBase pv with
            | Some package, _ =>
                let? package := lookup_pkg st package in
                match compressedFilename package with
                | Some c => Ok (Some (Path (packageDir package) c, self, []))
                | None => Raise TypeError
                end
            | None, Some package =>
                let? package := lookup_pkg st package in
                let? b := attr (baseFile package) in
                Ok (Some (Path (packageDir package) (filename b +:+ ".pz"), self, []))
            | None, None =>
                forRecreateFilePlan st
                  (λ fromPv, getRecreateFilePlan_rec fuel' st fromPv alreadyVisited)
                  self (fromPatches pv) None
            end
      end
  end.

Definition getRecreateFilePlan (st : State) (self : nat) : result (option Plan) :=
  getRecreateFilePlan_rec (S (length (pvs st))) st self [].

(** ** The external collaborators *)

Class Externals : Type := {
  (* Python's int(): None stands for ValueError *)
  int : string → option Z;
  (* decompressFile(src, dst), compressFile(src, dst, level) *)
  decompressFile : Filename → Filename → gset Filename → bool * gset Filename;
  compressFile : Filename → Filename → Z → gset Filename → bool * gset Filename;
  (* the C++ Patchfile: apply(patch, orig, result), build(orig, new, patch) *)
  patch_apply : Filename → Filename → Filename → gset Filename → bool * gset Filename;
  patch_build : Filename → Filename → Filename → gset Filename → bool * gset Filename;
  (* Filename.renameTo, Filename.copyTo *)
  renameTo : Filename → Filename → gset Filename → bool * gset Filename;
  copyTo : Filename → Filename → gset Filename → bool * gset Filename;
  (* FileSpec.fromFile(dir, name): size and hash of the file on disk *)
  fileSpec_fromFile : string → string → gset Filename → FileSpec;
  (* loading <dir>/<name>.import.xml succeeds *)
  importDesc_loads : Filename → gset Filename → bool;
}.

(** ** Stateful code: state passing with exceptions *)

Definition M (A : Type) : Type := State → result (A * State).

Definition mret {A} (a : A) : M A := λ st, Ok (a, st).
Definition mbind {A B} (m : M A) (k : A → M B) : M B :=
  λ st, match m st with
        | Ok (a, st') => k a st'
        | Raise e => Raise e
        | OutOfFuel => OutOfFuel
        end.
Definition throw {A} (e : exn) : M A := λ _, Raise e.
Definition lift {A} (f : State → result A) : M A :=
  λ st, match f st with
        | Ok a => Ok (a, st)
        | Raise e => Raise e
        | OutOfFuel => OutOfFuel
        end.
Definition modify (f : State → State) : M unit := λ st, Ok (tt, f st).

Notation "'let!' x := c 'in' k" := (mbind c (fun x => k))
  (at level 10, x pattern, c at level 100, k at level 200).

(** The state that a computation leaves behind. *)
Definition after {A} (m : M A) (st : State) : State :=
  match m st with
  | Ok (_, st') => st'
  | _ => st
  end.

(** The value that a computation returns. *)
Definition value_of {A} (r : result (A * State)) : option A :=
  match r with
  | Ok (a, _) => Some a
  | _ => None
  end.

Definition log (e : Event) : M unit := modify (set_trace (λ t, t ++ [e])).

(** A call of an external collaborator on the file system. *)
Definition call (e : Event) (f : gset Filename → bool * gset Filename) : M bool :=
  λ st, let r := f (fs st) in
        Ok (r.1, set_trace (λ t, t ++ [e]) (set_fs (λ _, r.2) st)).

(** [Filename.temporary('', prefix)]: a name that was not handed out before. *)
Definition temporary (prefix : string) : M Filename :=
  λ st, Ok (Temporary prefix (tempCount st), set_tempCount S st).

(** [f.unlink()] and [f.exists()] *)
Definition unlink (f : Filename) : M unit :=
  λ st, Ok (tt, set_trace (λ t, t ++ [EvUnlink f]) (set_fs (λ s, s ∖ {[f]}) st)).
Definition exists_ (f : Filename) : M bool :=
  λ st, Ok (bool_decide (f ∈ fs st), st).

Definition set_tempFile (t : option Filename) (pv : PackageVersion) : PackageVersion :=
  mkPackageVersion (pv_packageName pv) (pv_platform pv) (pv_version pv) (pv_hostUrl pv)
    (pv_file pv) (printName pv) (packageCurrent pv) (packageBase pv) (packageTop pv)
    (fromPatches pv) (toPatches pv) t.

(** Assignment to an attribute of a stored PackageVersion. *)
Definition update_pv (r : nat) (f : PackageVersion → PackageVersion) : M unit :=
  λ st, match pvs st !! r with
        | Some pv => Ok (tt, set_pvs (λ l, <[r := f pv]> l) st)
        | None => Raise DanglingRef
        end.

(** ** PackageVersion.applyPatch and PackageVersion.getFile *)

Definition applyPatch `{Externals} (origFile patchFilename : Filename) : M (option Filename) :=
  let! result := temporary "patch_" in
  let! ok := call (EvApply patchFilename origFile result)
                  (patch_apply patchFilename origFile result) in
  if ok then mret (Some result) else mret None.

(** The loop [for patchfile, pv in plan]; [None] is the early [return None]. *)
Fixpoint forPlan `{Externals} (plan : list (nat * nat)) (prevFile : Filename)
    : M (option Filename) :=
  match plan with
  | [] => mret (Some prevFile)
  | (patchfile, pv) :: plan' =>
      let! pf := lift (λ st, lookup_pf st patchfile) in
      let! package := lift (λ st, lookup_pkg st (pf_package pf)) in
      let! file := lift (λ _, attr (pf_file pf)) in
      let patchFilename := Path (packageDir package) (filename file) in
      let! result := applyPatch prevFile patchFilename in
      match result with
      | None => mret None
      | Some result =>
          let! _ := update_pv pv (set_tempFile (Some result)) in
          forPlan plan' result
      end
  end.

(** The first block of getFile: a compressed starting file is decompressed
    into a temporary that becomes [startPv.tempFile]; [None] is the early
    [return None]. *)
Definition decompressStart `{Externals} (startFile : Filename) (startPv : nat)
    : M (option Filename) :=
  if decide (getExtension startFile = "pz") then
    let! spv := lift (λ st, lookup_pv st startPv) in
    match tempFile spv with
    | Some _ => throw AssertionError   (* assert startPv.tempFile is None *)
    | None =>
        let! t := temporary "patch_" in
        let! _ := update_pv startPv (set_tempFile (Some t)) in
        let! ok := call (EvDecompress startFile t) (decompressFile startFile t) in
        if ok then mret (Some t) else mret None
    end
  else mret (Some startFile).

(** The rest of getFile, from [if not plan] on. *)
Definition applyPlan `{Externals} (self : nat) (plan : list (nat * nat))
    (startFile : Filename) : M (option Filename) :=
  match plan with
  | [] => mret (Some startFile)
  | _ :: _ =>
      let! r := forPlan plan startFile in
      match r with
      | None => mret None
      | Some prevFile =>
          (* assert pv is self and prevFile is self.tempFile *)
          let! me := lift (λ st, lookup_pv st self) in
          if decide (snd <$> last plan = Some self ∧ tempFile me = Some prevFile)
          then mret (Some prevFile)
          else throw AssertionError
      end
  end.

Definition getFile `{Externals} (self : nat) : M (option Filename) :=
  let! r := lift (λ st, getRecreateFilePlan st self) in
  match r with
  | None =>
      (* startFile is None: startFile.getExtension() *)
      throw AttributeError
  | Some (startFile, startPv, plan) =>
      let! startFile := decompressStart startFile startPv in
      match startFile with
      | None => mret None
      | Some startFile => applyPlan self plan startFile
      end
  end.

(** ** Attribute assignment on stored objects *)

Definition gets {A} (f : State → A) : M A := λ st, Ok (f st, st).

Definition set_toPatches (l : list nat) (pv : PackageVersion) : PackageVersion :=
  mkPackageVersion (pv_packageName pv) (pv_platform pv) (pv_version pv) (pv_hostUrl pv)
    (pv_file pv) (printName pv) (packageCurrent pv) (packageBase pv) (packageTop pv)
    (fromPatches pv) l (tempFile pv).
Definition set_fromPatches (l : list nat) (pv : PackageVersion) : PackageVersion :=
  mkPackageVersion (pv_packageName pv) (pv_platform pv) (pv_version pv) (pv_hostUrl pv)
    (pv_file pv) (printName pv) (packageCurrent pv) (packageBase pv) (packageTop pv)
    l (toPatches pv) (tempFile pv).
Definition set_printName (n : option string) (pv : PackageVersion) : PackageVersion :=
  mkPackageVersion (pv_packageName pv) (pv_platform pv) (pv_version pv) (pv_hostUrl pv)
    (pv_file pv) n (packageCurrent pv) (packageBase pv) (packageTop pv)
    (fromPatches pv) (toPatches pv) (tempFile pv).
Definition set_packageCurrent (p : option nat) (pv : PackageVersion) : PackageVersion :=
  mkPackageVersion (pv_packageName pv) (pv_platform pv) (pv_version pv) (pv_hostUrl pv)
    (pv_file pv) (printName pv) p (packageBase pv) (packageTop pv)
    (fromPatches pv) (toPatches pv) (tempFile pv).
Definition set_packageBase (p : option nat) (pv : PackageVersion) : PackageVersion :=
  mkPackageVersion (pv_packageName pv) (pv_platform pv) (pv_version pv) (pv_hostUrl pv)
    (pv_file pv) (printName pv) (packageCurrent pv) p (packageTop pv)
    (fromPatches pv) (toPatches pv) (tempFile pv).
Definition set_packageTop (p : option nat) (pv : PackageVersion) : PackageVersion :=
  mkPackageVersion (pv_packageName pv) (pv_platform pv) (pv_version pv) (pv_hostUrl pv)
    (pv_file pv) (printName pv) (packageCurrent pv) (packageBase pv) p
    (fromPatches pv) (toPatches pv) (tempFile pv).

Definition set_fromPv (v : option nat) (pf : Patchfile) : Patchfile :=
  mkPatchfile (pf_package pf) (pf_packageName pf) (pf_platform pf) (pf_version pf)
    (pf_hostUrl pf) (pf_file pf) (sourceFile pf) (targetFile pf) v (toPv pf).
Definition set_toPv (v : option nat) (pf : Patchfile) : Patchfile :=
  mkPatchfile (pf_package pf) (pf_packageName pf) (pf_platform pf) (pf_version pf)
    (pf_hostUrl pf) (pf_file pf) (sourceFile pf) (targetFile pf) (fromPv pf) v.

Definition set_currentPv (v : option nat) (p : Package) : Package :=
  mkPackage (packageDir p) (packageDesc p) (contentsDocPackage p) (patchVersion p)
    v (basePv p) (topPv p) (pkg_packageName p) (pkg_platform p) (pkg_version p)
    (pkg_hostUrl p) (currentFile p) (baseFile p) (topFile p) (compressedFilename p)
    (doc p) (anyChanges p) (patches p).
Definition set_basePv (v : option nat) (p : Package) : Package :=
  mkPackage (packageDir p) (packageDesc p) (contentsDocPackage p) (patchVersion p)
    (currentPv p) v (topPv p) (pkg_packageName p) (pkg_platform p) (pkg_version p)
    (pkg_hostUrl p) (currentFile p) (baseFile p) (topFile p) (compressedFilename p)
    (doc p) (anyChanges p) (patches p).
Definition set_topPv (v : option nat) (p : Package) : Package :=
  mkPackage (packageDir p) (packageDesc p) (contentsDocPackage p) (patchVersion p)
    (currentPv p) (basePv p) v (pkg_packageName p) (pkg_platform p) (pkg_version p)
    (pkg_hostUrl p) (currentFile p) (baseFile p) (topFile p) (compressedFilename p)
    (doc p) (anyChanges p) (patches p).
Definition set_patches (l : list nat) (p : Package) : Package :=
  mkPackage (packageDir p) (packageDesc p) (contentsDocPackage p) (patchVersion p)
    (currentPv p) (basePv p) (topPv p) (pkg_packageName p) (pkg_platform p) (pkg_version p)
    (pkg_hostUrl p) (currentFile p) (baseFile p) (topFile p) (compressedFilename p)
    (doc p) (anyChanges p) l.
Definition set_anyChanges (b : bool) (p : Package) : Package :=
  mkPackage (packageDir p) (packageDesc p) (contentsDocPackage p) (patchVersion p)
    (currentPv p) (basePv p) (topPv p) (pkg_packageName p) (pkg_platform p) (pkg_version p)
    (pkg_hostUrl p) (currentFile p) (baseFile p) (topFile p) (compressedFilename p)
    (doc p) b (patches p).
Definition set_doc (d : option Descriptor) (p : Package) : Package :=
  mkPackage (packageDir p) (packageDesc p) (contentsDocPackage p) (patchVersion p)
    (currentPv p) (basePv p) (topPv p) (pkg_packageName p) (pkg_platform p) (pkg_version p)
    (pkg_hostUrl p) (currentFile p) (baseFile p) (topFile p) (compressedFilename p)
    d (anyChanges p) (patches p).
Definition set_contentsDocPackage (c : option ContentsEntry) (p : Package) : Package :=
  mkPackage (packageDir p) (packageDesc p) c (patchVersion p)
    (currentPv p) (basePv p) (topPv p) (pkg_packageName p) (pkg_platform p) (pkg_version p)
    (pkg_hostUrl p) (currentFile p) (baseFile p) (topFile p) (compressedFilename p)
    (doc p) (anyChanges p) (patches p).

Definition update_pf (r : nat) (f : Patchfile → Patchfile) : M unit :=
  λ st, match pfs st !! r with
        | Some pf => Ok (tt, set_pfs (λ l, <[r := f pf]> l) st)
        | None => Raise DanglingRef
        end.
Definition update_pkg (r : nat) (f : Package → Package) : M unit :=
  λ st, match pkgs st !! r with
        | Some p => Ok (tt, set_pkgs (λ l, <[r := f p]> l) st)
        | None => Raise DanglingRef
        end.

(** The loop [for x in l: body(x)]. *)
Fixpoint for_each {A} (l : list A) (body : A → M unit) : M unit :=
  match l with
  | [] => mret tt
  | x :: l' => let! _ := body x in for_each l' body
  end.

(** ** Keys *)

(** The tuple (packageName, platform, version, hostUrl, file). *)
Abbreviation FileKey :=
  (option string * option string * option string * option string * option FileSpec)%type.

Definition getSourceKey (pf : Patchfile) : FileKey :=
  (pf_packageName pf, pf_platform pf, pf_version pf, pf_hostUrl pf, sourceFile pf).
Definition getTargetKey (pf : Patchfile) : FileKey :=
  (pf_packageName pf, pf_platform pf, pf_version pf, pf_hostUrl pf, targetFile pf).
Definition getCurrentKey (p : Package) : FileKey :=
  (pkg_packageName p, pkg_platform p, pkg_version p, pkg_hostUrl p, currentFile p).
Definition getBaseKey (p : Package) : FileKey :=
  (pkg_packageName p, pkg_platform p, pkg_version p, pkg_hostUrl p, baseFile p).
Definition getTopKey (p : Package) : FileKey :=
  (pkg_packageName p, pkg_platform p, pkg_version p, pkg_hostUrl p, topFile p).
Definition getGenericKey (p : Package) (fileSpec : option FileSpec) : FileKey :=
  (pkg_packageName p, pkg_platform p, pkg_version p, pkg_hostUrl p, fileSpec).

(** The key that getPackageVersion interns a stored node under. *)
Definition key_of (pv : PackageVersion) : Key :=
  (pv_packageName pv, pv_platform pv, pv_version pv, pv_hostUrl pv, hash (pv_file pv)).

(** ** PatchMaker.getPackageVersion, recordPatchfile, buildPatchChains *)

(** [PackageVersion(packageName, platform, version, hostUrl, file)] *)
Definition newPackageVersion (packageName platform version hostUrl : option string)
    (file : FileSpec) : PackageVersion :=
  mkPackageVersion packageName platform version hostUrl file
    None None None None [] [] None.

Definition getPackageVersion (key : FileKey) : M nat :=
  let '(packageName, platform, version, hostUrl, file) := key in
  (* file.hash *)
  let! file := lift (λ _, attr file) in
  let k := (packageName, platform, version, hostUrl, hash file) in
  λ st,
    match packageVersions st !! k with
    | Some pv => Ok (pv, st)
    | None =>
        let pv := length (pvs st) in
        Ok (pv, set_packageVersions (λ m, <[k := pv]> m)
                  (set_pvs (λ l, l ++ [newPackageVersion packageName platform
                                         version hostUrl file]) st))
    end.

Definition recordPatchfile (patchfile : nat) : M unit :=
  let! pf := lift (λ st, lookup_pf st patchfile) in
  let! file := lift (λ _, attr (pf_file pf)) in
  let! _ := modify (set_patchFilenames (λ m, <[filename file := patchfile]> m)) in
  let! fromPv := getPackageVersion (getSourceKey pf) in
  let! _ := update_pf patchfile (set_fromPv (Some fromPv)) in
  let! _ := update_pv fromPv (λ pv, set_toPatches (toPatches pv ++ [patchfile]) pv) in
  let! toPv := getPackageVersion (getTargetKey pf) in
  let! _ := update_pf patchfile (set_toPv (Some toPv)) in
  let! _ := update_pv toPv (λ pv, set_fromPatches (fromPatches pv ++ [patchfile]) pv) in
  update_pv toPv (set_printName (Some (filename file))).

(** The body of the loop [for package in self.packages]. *)
Definition buildPatchChains_body (package : nat) : M unit :=
  let! p := lift (λ st, lookup_pkg st package) in
  match baseFile p with
  | None => mret tt   (* continue *)
  | Some base =>
      let! currentPv := getPackageVersion (getCurrentKey p) in
      let! _ := update_pkg package (set_currentPv (Some currentPv)) in
      let! _ := update_pv currentPv (set_packageCurrent (Some package)) in
      let! current := lift (λ _, attr (currentFile p)) in
      let! _ := update_pv currentPv (set_printName (Some (filename current))) in
      let! basePv := getPackageVersion (getBaseKey p) in
      let! _ := update_pkg package (set_basePv (Some basePv)) in
      let! _ := update_pv basePv (set_packageBase (Some package)) in
      let! _ := update_pv basePv (set_printName (Some (filename base))) in
      let! topPv := getPackageVersion (getTopKey p) in
      let! _ := update_pkg package (set_topPv (Some topPv)) in
      let! _ := update_pv topPv (set_packageTop (Some package)) in
      for_each (patches p) recordPatchfile
  end.

Definition buildPatchChains : M unit :=
  let! _ := modify (set_patchFilenames (λ _, ∅)) in
  let! l := gets packages in
  for_each l buildPatchChains_body.

(** ** PatchMaker.buildPatchFile, buildPatch, processPackage *)

(** [str(n)] and ['%s' % n] for an integer. *)
Definition str (n : Z) : string := NilZero.string_of_int (Z.to_int n).

Definition buildPatchFile `{Externals} (origFilename newFilename : option Filename)
    (patchFilename : Filename) : M bool :=
  let! origFilename := lift (λ _, attr origFilename) in
  let! there := exists_ origFilename in
  if negb there then
    (* No original version to patch from. *)
    mret false
  else
    let! _ := unlink patchFilename in
    let! newFilename :=
      lift (λ _, match newFilename with Some f => Ok f | None => Raise TypeError end) in
    let! ok := call (EvBuild origFilename newFilename patchFilename)
                    (patch_build origFilename newFilename patchFilename) in
    if ok then mret true
    else
      (* Unable to build a patch for some reason. *)
      let! _ := unlink patchFilename in
      mret false.

(** [Patchfile(package)] followed by
    [patchfile.fromFile(packageDir, patchFilename, sourceFile, targetFile)]. *)
Definition newPatchfile_fromFile `{Externals} (package : nat) (p : Package)
    (patchFilename : string) (source target : FileSpec) : M nat :=
  λ st,
    let file := fileSpec_fromFile (packageDir p) patchFilename (fs st) in
    let pf := mkPatchfile package (pkg_packageName p) (pkg_platform p) (pkg_version p)
                None (Some file) (Some source) (Some target) None None in
    Ok (length (pfs st), set_pfs (λ l, l ++ [pf]) st).

Definition buildPatch `{Externals} (v1 v2 : option nat) (package : nat)
    (patchFilename : string) : M bool :=
  let! p := lift (λ st, lookup_pkg st package) in
  let pathname := Path (packageDir p) patchFilename in
  let! v1 := lift (λ _, attr v1) in
  let! f1 := getFile v1 in
  let! v2 := lift (λ _, attr v2) in
  let! f2 := getFile v2 in
  let! built := buildPatchFile f1 f2 pathname in
  if negb built then mret false
  else
    let compressedPathname := Path (packageDir p) (patchFilename +:+ ".pz") in
    let! _ := unlink compressedPathname in
    let! ok := call (EvCompress pathname compressedPathname)
                    (compressFile pathname compressedPathname 9) in
    if negb ok then throw (Exception "Couldn't compress patch.")
    else
      let! _ := unlink pathname in
      let! pv1 := lift (λ st, lookup_pv st v1) in
      let! pv2 := lift (λ st, lookup_pv st v2) in
      let! patchfile := newPatchfile_fromFile package p (patchFilename +:+ ".pz")
                          (pv_file pv1) (pv_file pv2) in
      let! _ := update_pkg package (λ p, set_patches (patches p ++ [patchfile]) p) in
      let! _ := update_pkg package (set_anyChanges true) in
      let! _ := recordPatchfile patchfile in
      mret true.

Definition processPackage `{Externals} (package : nat) : M unit :=
  let! p := lift (λ st, lookup_pkg st package) in
  match baseFile p with
  | None => mret tt   (* No versions. *)
  | Some _ =>
      if decide (topPv p ≠ currentPv p) then
        (* They're different, so build a new patch. *)
        let! current := lift (λ _, attr (currentFile p)) in
        let filename := filename current +:+ "." +:+ str (patchVersion p) +:+ ".patch" in
        let! names := gets patchFilenames in
        if decide (is_Some (names !! filename)) then throw AssertionError
        else
          let! ok := buildPatch (topPv p) (currentPv p) package filename in
          if negb ok then throw (Exception "Couldn't build patch.")
          else mret tt
      else mret tt
  end.

Definition processAllPackages `{Externals} : M unit :=
  let! l := gets packages in
  for_each l processPackage.

(** ** Package.readDescFile and Package.writeDescFile *)

(** [PatchMaker(installDir)] *)
Definition newPatchMaker (installDir : string) (world : gset Filename) : State :=
  mkState installDir ∅ [] ∅ [] [] [] world 0 [].

(** [Package(packageDesc, patchMaker, xpackage)]; [packageDir] is
    [Filename(patchMaker.installDir, packageDesc.getDirname())]. *)
Definition newPackage (packageDir packageDesc : string)
    (xpackage : option ContentsEntry) : Package :=
  mkPackage packageDir packageDesc xpackage 1 None None None
    None None None None None None None None None false [].

(** The truth value of [xpackage.Attribute(name)]: a missing attribute is
    None and an empty one is the empty string, both false. *)
Definition truthy (a : option string) : option string :=
  match a with
  | Some v => if decide (v = "") then None else Some v
  | None => None
  end.

(** [int(s)] *)
Definition pyint `{Externals} (s : string) : M Z :=
  lift (λ _, match int s with Some n => Ok n | None => Raise ValueError end).

(** [a or b] on attribute values *)
Definition or_else (a b : option string) : option string :=
  match truthy a with Some v => Some v | None => b end.

(** [Patchfile(package)] followed by [patchfile.loadXml(xpatch)]. *)
Definition newPatchfile_loadXml (package : nat) (packageName platform version : option string)
    (xpatch : PatchXml) : Patchfile :=
  mkPatchfile package
    (or_else (x_name xpatch) packageName)
    (or_else (x_platform xpatch) platform)
    (or_else (x_version xpatch) version)
    (or_else (x_host xpatch) None)
    (Some (x_file xpatch)) (x_source xpatch) (x_target xpatch) None None.

(** The loop [while xpatch: ...; self.patches.append(patchfile)]: the new
    Patchfile objects are stored and their references are returned in order. *)
Fixpoint loadPatches (package : nat) (packageName platform version : option string)
    (l : list PatchXml) : M (list nat) :=
  match l with
  | [] => mret []
  | xpatch :: l' =>
      let! r := (λ st, Ok (length (pfs st),
                   set_pfs (λ s, s ++ [newPatchfile_loadXml package packageName
                                         platform version xpatch]) st)) in
      let! rs := loadPatches package packageName platform version l' in
      mret (r :: rs)
  end.

(** [self.readDescFile(doProcessing)]; [loaded] is the <package> element of
    the document that LoadFile read, None when the file cannot be read or
    has no such element. *)
Definition readDescFile `{Externals} (self : nat) (loaded : option Descriptor)
    (doProcessing : bool) : M bool :=
  let! _ := update_pkg self (set_anyChanges false) in
  let! _ := update_pkg self (set_doc loaded) in
  match loaded with
  | None => mret false
  | Some xpackage =>
      let! p := lift (λ st, lookup_pkg st self) in
      let packageName := d_name xpackage in
      let platform := d_platform xpackage in
      let version := d_version xpackage in
      (* Get the actual current version. *)
      let currentFile := d_uncompressed_archive xpackage in
      (* Get the top_version.  isNewVersion starts out True. *)
      let! (topFile, isNewVersion, anyChanges) :=
        match d_top_version xpackage with
        | Some top =>
            let! current := lift (λ _, attr currentFile) in
            if decide (hash top = hash current)
            then mret (Some top, false, false)
            else mret (Some top, true, true)
        | None => mret (currentFile, true, true)
        end in
      (* Get the current patch version. *)
      let! (patchVersion, anyChanges) :=
        match truthy (d_patch_version xpackage) with
        | Some v => let! n := pyint v in mret (n, anyChanges)
        | None =>
            match truthy (d_last_patch_version xpackage) with
            | Some v =>
                let! n := pyint v in
                mret (if isNewVersion then (n + 1)%Z else n, true)
            | None => mret (patchVersion p, true)
            end
        end in
      (* Put the patchVersion in the compressed filename. *)
      let! (compressedFilename, xcompressed, anyChanges) :=
        match d_compressed_archive xpackage with
        | None => mret (None, None, anyChanges)
        | Some compressedFile =>
            let oldCompressedFilename := filename compressedFile in
            if doProcessing then
              let! current := lift (λ _, attr currentFile) in
              let newCompressedFilename :=
                filename current +:+ "." +:+ str patchVersion +:+ ".pz" in
              if decide (newCompressedFilename ≠ oldCompressedFilename) then
                let oldCompressedPathname := Path (packageDir p) oldCompressedFilename in
                let newCompressedPathname := Path (packageDir p) newCompressedFilename in
                let! renamed := call (EvRename oldCompressedPathname newCompressedPathname)
                                  (renameTo oldCompressedPathname newCompressedPathname) in
                let! world := gets fs in
                let compressedFile :=
                  if renamed
                  then fileSpec_fromFile (packageDir p) newCompressedFilename world
                  else compressedFile in
                mret (Some newCompressedFilename, Some compressedFile, true)
              else mret (Some oldCompressedFilename, Some compressedFile, anyChanges)
            else mret (Some oldCompressedFilename, Some compressedFile, anyChanges)
        end in
      (* Get the base_version. *)
      let! (baseFile, anyChanges) :=
        match d_base_version xpackage with
        | Some base => mret (Some base, anyChanges)
        | None =>
            let! current := lift (λ _, attr currentFile) in
            let base := mkFileSpec (filename current +:+ ".base") (size current)
                          (hash current) in
            let! _ :=
              match truthy compressedFilename with
              | Some c =>
                  if doProcessing then
                    let fromPathname := Path (packageDir p) c in
                    let toPathname := Path (packageDir p) (filename base +:+ ".pz") in
                    let! _ := call (EvCopy fromPathname toPathname)
                                (copyTo fromPathname toPathname) in
                    mret tt
                  else mret tt
              | None => mret tt
              end in
            mret (Some base, true)
        end in
      let! patches := loadPatches self packageName platform version (d_patch xpackage) in
      let xpackage :=
        mkDescriptor (d_name xpackage) (d_platform xpackage) (d_version xpackage)
          (d_seq xpackage) (d_patch_version xpackage) (d_last_patch_version xpackage)
          (d_uncompressed_archive xpackage) xcompressed (d_top_version xpackage)
          (d_base_version xpackage) (d_patch xpackage) in
      let! _ := update_pkg self (λ p,
        mkPackage (packageDir p) (packageDesc p) (contentsDocPackage p) patchVersion
          (currentPv p) (basePv p) (topPv p) packageName platform version None
          currentFile baseFile topFile compressedFilename (Some xpackage)
          anyChanges patches) in
      mret true
  end.

(** [patchfile.makeXml(package)]: only the coordinates that differ from the
    package's are written. *)
Definition makeXml (pf : Patchfile) (p : Package) : result PatchXml :=
  let differs (a b : option string) := if decide (a ≠ b) then a else None in
  let? file := attr (pf_file pf) in
  let? source := attr (sourceFile pf) in
  let? target := attr (targetFile pf) in
  Ok (mkPatchXml (differs (pf_packageName pf) (pkg_packageName p))
        (differs (pf_platform pf) (pkg_platform p))
        (differs (pf_version pf) (pkg_version p))
        (differs (pf_hostUrl pf) (pkg_hostUrl p))
        file (Some source) (Some target)).

Fixpoint makeXmls (st : State) (l : list nat) (p : Package) : result (list PatchXml) :=
  match l with
  | [] => Ok []
  | patchfile :: l' =>
      let? pf := lookup_pf st patchfile in
      let? x := makeXml pf p in
      let? xs := makeXmls st l' p in
      Ok (x :: xs)
  end.

(** [str(self.packageDesc)[:-3] + 'import.xml'] *)
Definition importDescFilename (packageDesc : string) : string :=
  substring 0 (String.length packageDesc - 3) packageDesc +:+ "import.xml".

Definition writeDescFile `{Externals} (self : nat) : M unit :=
  let! p := lift (λ st, lookup_pkg st self) in
  if negb (anyChanges p) then
    (* No need to rewrite. *)
    mret tt
  else
    match doc p with
    | None => mret tt
    | Some xpackage =>
        let packageSeq := (d_seq xpackage + 1)%Z in
        let! base := lift (λ _, attr (baseFile p)) in
        let! current := lift (λ _, attr (currentFile p)) in
        let! xpatches := lift (λ st, makeXmls st (patches p) p) in
        let xpackage :=
          mkDescriptor (d_name xpackage) (d_platform xpackage) (d_version xpackage)
            packageSeq (Some (str (patchVersion p))) None
            (d_uncompressed_archive xpackage) (d_compressed_archive xpackage)
            (Some current) (Some base) xpatches in
        let! _ := update_pkg self (set_doc (Some xpackage)) in
        let! dir := gets installDir in
        let! _ := log (EvSaveDesc (Path dir (packageDesc p)) xpackage) in
        (* Also copy the seq to the import desc file. *)
        let importDescFullpath := Path dir (importDescFilename (packageDesc p)) in
        let! world := gets fs in
        let! _ := if importDesc_loads importDescFullpath world
                  then log (EvSaveImport importDescFullpath packageSeq)
                  else mret tt in
        match contentsDocPackage p with
        | None => mret tt
        | Some entry =>
            let entry :=
              mkContentsEntry
                (Some (fileSpec_fromFile dir (packageDesc p) world))
                (match ce_import entry with
                 | Some _ => Some (Some (fileSpec_fromFile dir
                                           (importDescFilename (packageDesc p)) world))
                 | None => None
                 end)
                (Some packageSeq) in
            update_pkg self (set_contentsDocPackage (Some entry))
        end
    end.

(** ** Paths in the patch graph *)

(** [edge st e u t]: the Patchfile [e] is listed in [t.fromPatches] and its
    [fromPv] is [u]; this is the step that getPatchChain follows backwards. *)
Definition edge (st : State) (e u t : nat) : Prop :=
  ∃ pv pf, pvs st !! t = Some pv ∧ e ∈ fromPatches pv ∧
           pfs st !! e = Some pf ∧ fromPv pf = Some u.

(** [chain st V s t p]: the patchfiles [p], applied in sequence, lead from
    [s] to [t], and no edge of [p] arrives at a node of [V]. *)
Inductive chain (st : State) (V : list nat) (s : nat) : nat → list nat → Prop :=
  | chain_nil : chain st V s s []
  | chain_snoc t u e p :
      t ∉ V → edge st e u t → chain st V s u p → chain st V s t (p ++ [e]).

(** A directed path of patch edges from [s] to [t]. *)
Definition path (st : State) (s t : nat) (p : list nat) : Prop := chain st [] s t p.

(** Every listed patchfile is stored and has been given its [fromPv]. *)
Definition graph_wf (st : State) : Prop :=
  ∀ t pv e, pvs st !! t = Some pv → e ∈ fromPatches pv →
    ∃ pf u, pfs st !! e = Some pf ∧ fromPv pf = Some u ∧ u < length (pvs st).

(** The chain that the loop of getPatchChain obtains through patchfile [e]. *)
Definition candidate (st : State) (rec : nat → result (option (list nat))) (e : nat)
    : result (option (list nat)) :=
  let? pf := lookup_pf st e in
  let? fromPv := attr (fromPv pf) in
  let? patchChain := rec fromPv in
  Ok ((λ c, c ++ [e]) <$> patchChain).

(** The number of stored PackageVersion objects outside [V]. *)
Definition unvisited (st : State) (V : list nat) : nat :=
  length (filter (λ n, n ∉ V) (seq 0 (length (pvs st)))).

(** [r] is a shortest chain from [s] to [t] among those that avoid [V];
    [None] when there is none. *)
Definition shortest (st : State) (V : list nat) (s t : nat) (r : option (list nat)) : Prop :=
  match r with
  | Some c => chain st V s t c ∧ ∀ p, chain st V s t p → length c ≤ length p
  | None => ∀ p, ¬ chain st V s t p
  end.

(** The recursive call that [t.getPatchChain(s)] makes on a [fromPv]. *)
Definition subChain (st : State) (s t : nat) : nat → result (option (list nat)) :=
  λ fromPv, getPatchChain_rec (length (pvs st)) st fromPv s [t].

(** The tie-break of [t.getPatchChain(s) = c]: [c] is the candidate of the
    first patchfile, in the order of [t.fromPatches], whose candidate has the
    least length. *)
Definition first_shortest (st : State) (s t : nat) (c : list nat) : Prop :=
  (t = s ∧ c = []) ∨
  (t ≠ s ∧ ∃ pv i e,
     pvs st !! t = Some pv ∧ fromPatches pv !! i = Some e ∧
     candidate st (subChain st s t) e = Ok (Some c) ∧
     (∀ e' c', e' ∈ fromPatches pv →
        candidate st (subChain st s t) e' = Ok (Some c') → length c ≤ length c') ∧
     (∀ j e' c', j < i → fromPatches pv !! j = Some e' →
        candidate st (subChain st s t) e' = Ok (Some c') → length c < length c')).

(** A decision procedure for [graph_wf]. *)
Definition edge_ok (st : State) (e : nat) : bool :=
  match pfs st !! e with
  | Some pf =>
      match fromPv pf with
      | Some u => bool_decide (u < length (pvs st))
      | None => false
      end
  | None => false
  end.
Definition check_graph (st : State) : bool :=
  forallb (λ pv, forallb (edge_ok st) (fromPatches pv)) (pvs st).

(** A checker for paths, walking the patchfiles from the last to the first. *)
Fixpoint check_chain (st : State) (s t : nat) (rp : list nat) : bool :=
  match rp with
  | [] => bool_decide (t = s)
  | e :: rp' =>
      match pvs st !! t, pfs st !! e with
      | Some pv, Some pf =>
          bool_decide (e ∈ fromPatches pv) &&
          match fromPv pf with
          | Some u => check_chain st s u rp'
          | None => false
          end
      | _, _ => false
      end
  end.
Definition check_path (st : State) (s t : nat) (p : list nat) : bool :=
  check_chain st s t (rev p).

(** ** Example graphs *)

(** A stored node with the given incoming patchfiles, and a patchfile from
    [u] to [t]; all other attributes are as the constructors leave them. *)
Definition node (incoming : list nat) : PackageVersion :=
  set_fromPatches incoming (newPackageVersion None None None None (mkFileSpec "" 0 "")).
Definition arrow (u t : nat) : Patchfile :=
  mkPatchfile 0 None None None None None None None (Some u) (Some t).
Definition graph (nodes : list PackageVersion) (arrows : list Patchfile) : State :=
  set_pfs (λ _, arrows) (set_pvs (λ _, nodes) (newPatchMaker "" ∅)).

(** a → b → c → d and a → d; the long way is listed first at d. *)
Definition graph_S5 : State :=
  graph [node []; node [0]; node [1]; node [2; 3]]
        [arrow 0 1; arrow 1 2; arrow 2 3; arrow 0 3].

(** a → b → a, and c on its own. *)
Definition graph_S6 : State :=
  graph [node [1]; node [0]; node []]
        [arrow 0 1; arrow 1 0].

(** ** Invariants of the patch graph *)

(** Interning: the table maps every key to a stored node that was created
    for this key, and every stored node is in the table under its key. *)
Definition intern_inv (st : State) : Prop :=
  (∀ k i, packageVersions st !! k = Some i →
     ∃ pv, pvs st !! i = Some pv ∧ key_of pv = k) ∧
  (∀ i pv, pvs st !! i = Some pv → packageVersions st !! key_of pv = Some i).

(** Edge wiring of the patchfile [e]. *)
Definition wired (st : State) (e : nat) : Prop :=
  ∃ pf u t pu pt src tgt,
    pfs st !! e = Some pf ∧ fromPv pf = Some u ∧ toPv pf = Some t ∧
    pvs st !! u = Some pu ∧ pvs st !! t = Some pt ∧
    e ∈ toPatches pu ∧ e ∈ fromPatches pt ∧
    sourceFile pf = Some src ∧ targetFile pf = Some tgt ∧
    hash (pv_file pu) = hash src ∧ hash (pv_file pt) = hash tgt.

(** What every operation keeps of the graph: table entries stay, stored
    nodes keep their coordinates and file, and their patch lists only grow. *)
Definition grows (st st' : State) : Prop :=
  (∀ k i, packageVersions st !! k = Some i → packageVersions st' !! k = Some i) ∧
  (∀ i pv, pvs st !! i = Some pv →
     ∃ pv', pvs st' !! i = Some pv' ∧ key_of pv' = key_of pv ∧
            pv_file pv' = pv_file pv ∧
            (∀ e, e ∈ fromPatches pv → e ∈ fromPatches pv') ∧
            (∀ e, e ∈ toPatches pv → e ∈ toPatches pv')).

(** Assignments to a node that keep its coordinates, file and patches. *)
Definition gentle (f : PackageVersion → PackageVersion) : Prop :=
  ∀ pv, key_of (f pv) = key_of pv ∧ pv_file (f pv) = pv_file pv ∧
        (∀ e, e ∈ fromPatches pv → e ∈ fromPatches (f pv)) ∧
        (∀ e, e ∈ toPatches pv → e ∈ toPatches (f pv)).

(** A step that touches the nodes, the table and the world only. *)
Definition node_step (st st' : State) : Prop :=
  grows st st' ∧ (intern_inv st → intern_inv st') ∧
  pfs st' = pfs st ∧ pkgs st' = pkgs st ∧ packages st' = packages st.

(** The patches and the base of every package are left as they are. *)
Definition same_patches (st st' : State) : Prop :=
  packages st' = packages st ∧
  ∀ i p', pkgs st' !! i = Some p' →
    ∃ p, pkgs st !! i = Some p ∧ patches p' = patches p ∧ baseFile p' = baseFile p.

(** A step of graph construction, from a state with a sound table. *)
Definition wire_step (st st' : State) : Prop :=
  intern_inv st →
  intern_inv st' ∧ grows st st' ∧ same_patches st st' ∧
  (∀ e, wired st e → wired st' e).

(** A package without its three interned pointers. *)
Definition strip (p : Package) : Package :=
  set_currentPv None (set_basePv None (set_topPv None p)).

(** The top of the package is its current version: the descriptor's
    top_version has the hash of its uncompressed_archive. *)
Definition top_is_current (p : Package) : Prop :=
  ∃ b c t, baseFile p = Some b ∧ currentFile p = Some c ∧ topFile p = Some t ∧
           hash t = hash c.

(** The state of package [y] after some assignments to it. *)
Definition pkg_at (y : nat) (q : Package) (st0 st : State) : Prop :=
  pkgs st !! y = Some q ∧ ∀ i, i ≠ y → pkgs st !! i = pkgs st0 !! i.

(** ** What readDescFile decides *)

(** The flag [isNewVersion] of readDescFile: it starts out True and is
    cleared only when the descriptor has a top_version whose hash is the
    hash of the uncompressed_archive. *)
Definition isNewVersion (d : Descriptor) : bool :=
  match d_top_version d, d_uncompressed_archive d with
  | Some top, Some current => bool_decide (hash top ≠ hash current)
  | _, _ => true
  end.

(** With [doProcessing], the compressed archive is renamed when its name
    is not [<currentFile.filename>.<patchVersion>.pz]. *)
Definition renames (d : Descriptor) (doProcessing : bool) (patchVersion : Z) : bool :=
  doProcessing &&
  match d_compressed_archive d, d_uncompressed_archive d with
  | Some compressed, Some current =>
      bool_decide (filename current +:+ "." +:+ str patchVersion +:+ ".pz"
                   ≠ filename compressed)
  | _, _ => false
  end.

(** The reasons, other than the patch version attributes, for which
    readDescFile marks the package as changed: a new or missing
    top_version, a rename, a missing base_version. *)
Definition dirty_otherwise (d : Descriptor) (doProcessing : bool) (patchVersion : Z) : bool :=
  isNewVersion d || renames d doProcessing patchVersion ||
  bool_decide (d_base_version d = None).

(** ** Example collaborators and sessions *)

(** Decimal literals, a fragment of what Python's int() accepts. *)
Definition decimal (s : string) : option Z := Z.of_int <$> NilZero.int_of_string s.

(** Collaborators that always succeed and create their output file;
    [hashOf] stands for the hash of a file on disk. *)
Definition working : Externals := {|
  int := decimal;
  decompressFile := λ _ dst w, (true, {[dst]} ∪ w);
  compressFile := λ _ dst _ w, (true, {[dst]} ∪ w);
  patch_apply := λ _ _ dst w, (true, {[dst]} ∪ w);
  patch_build := λ _ _ dst w, (true, {[dst]} ∪ w);
  renameTo := λ src dst w, (true, {[dst]} ∪ (w ∖ {[src]}));
  copyTo := λ _ dst w, (true, {[dst]} ∪ w);
  fileSpec_fromFile := λ _ name _, mkFileSpec name 0 ("hash of " +:+ name);
  importDesc_loads := λ f w, bool_decide (f ∈ w);
|}.

(** The same, with a delta engine that leaves a partial file and fails. *)
Definition failing_build : Externals := {|
  int := decimal;
  decompressFile := λ _ dst w, (true, {[dst]} ∪ w);
  compressFile := λ _ dst _ w, (true, {[dst]} ∪ w);
  patch_apply := λ _ _ dst w, (true, {[dst]} ∪ w);
  patch_build := λ _ _ dst w, (false, {[dst]} ∪ w);
  renameTo := λ src dst w, (true, {[dst]} ∪ (w ∖ {[src]}));
  copyTo := λ _ dst w, (true, {[dst]} ∪ w);
  fileSpec_fromFile := λ _ name _, mkFileSpec name 0 ("hash of " +:+ name);
  importDesc_loads := λ f w, bool_decide (f ∈ w);
|}.

(** A patchfile from [u] to [t] of package 0, stored under [name]. *)
Definition patch (name : string) (u t : nat) : Patchfile :=
  mkPatchfile 0 None None None None (Some (mkFileSpec name 0 "")) None None
    (Some u) (Some t).

(** base → v1 → v2, where base is anchored as the base of package 0. *)
Definition package_S4 : Package :=
  mkPackage "dir" "pkg.xml" None 3 None (Some 0) None (Some "pkg") None None None
    (Some (mkFileSpec "pkg.mf" 0 "hc")) (Some (mkFileSpec "pkg.mf.base" 0 "hb"))
    (Some (mkFileSpec "pkg.mf" 0 "hc")) (Some "pkg.mf.3.pz") None false [0; 1].
Definition session_S4 : State :=
  set_fs (λ _, {[Path "dir" "pkg.mf.base.pz"]})
    (set_pkgs (λ _, [package_S4])
       (graph [set_packageBase (Some 0) (node []); node [0]; node [1]]
              [patch "pkg.mf.1.patch.pz" 0 1; patch "pkg.mf.2.patch.pz" 1 2])).

Definition session_S4_v2 : State := after (@getFile working 2) session_S4.

(** A world where the original exists and a stale file is at the output
    path, before and after a failing build. *)
Definition session_failed_build : State :=
  set_fs (λ _, {[Path "dir" "old"; Path "dir" "pkg.mf.2.patch"]})
    (newPatchMaker "install" ∅).
Definition session_failed_build' : State :=
  after (@buildPatchFile failing_build (Some (Path "dir" "old"))
           (Some (Path "dir" "new")) (Path "dir" "pkg.mf.2.patch"))
    session_failed_build.

(** A single version that is neither anchored nor produced by a patchfile. *)
Definition session_orphan : State := graph [node []] [].

(** A PatchMaker on an install directory with one package, before its
    descriptor is read. *)
Definition install : State :=
  mkState "install" ∅ [0] ∅ [] []
    [newPackage "install/pkg" "pkg/pkg.xml" (Some (mkContentsEntry None None None))]
    {[Path "install/pkg" "pkg.mf.3.pz"; Path "install/pkg" "pkg.mf.base.pz";
      Path "install" "pkg/pkg.import.xml"]} 0 [].

(** S1: the descriptor of a package that was published and has not changed:
    top_version and uncompressed_archive have the same hash. *)
Definition descriptor_S1 : Descriptor :=
  mkDescriptor (Some "p") None None 7 (Some "3") None
    (Some (mkFileSpec "pkg.mf" 20 "c"))
    (Some (mkFileSpec "pkg.mf.3.pz" 8 "z"))
    (Some (mkFileSpec "pkg.mf" 20 "c"))
    (Some (mkFileSpec "pkg.mf.base" 10 "b"))
    [mkPatchXml None None None None (mkFileSpec "pkg.mf.3.patch.pz" 3 "d")
       (Some (mkFileSpec "pkg.mf.base" 10 "b")) (Some (mkFileSpec "pkg.mf" 20 "c"))].
Definition session_S1 : State :=
  after (@readDescFile working 0 (Some descriptor_S1) true) install.

(** A descriptor that carries last_patch_version and no top_version, and
    the package that readDescFile makes of it. *)
Definition descriptor_no_top : Descriptor :=
  mkDescriptor (Some "p") None None 7 None (Some "3")
    (Some (mkFileSpec "pkg.mf" 20 "c"))
    (Some (mkFileSpec "pkg.mf.3.pz" 8 "z"))
    None
    (Some (mkFileSpec "pkg.mf.base" 10 "b"))
    [].
Definition session_no_top : State :=
  after (@readDescFile working 0 (Some descriptor_no_top) false) install.
Definition package_no_top : Package :=
  mkPackage "install/pkg" "pkg/pkg.xml" (Some (mkContentsEntry None None None)) 4
    None None None (Some "p") None None None
    (Some (mkFileSpec "pkg.mf" 20 "c")) (Some (mkFileSpec "pkg.mf.base" 10 "b"))
    (Some (mkFileSpec "pkg.mf" 20 "c")) (Some "pkg.mf.3.pz")
    (Some descriptor_no_top) true [].

(** The same session after buildPatchChains, and after two further calls of
    getPackageVersion for the current version under another file name. *)
Definition session_S1_built : State := after buildPatchChains session_S1.
Definition key_S1 (name : string) : FileKey :=
  (Some "p", None, None, None, Some (mkFileSpec name 20 "c")).
Definition session_S1_asked : State :=
  after (getPackageVersion (key_S1 "pkg.mf")) session_S1_built.
Definition session_S1_again : State :=
  after (getPackageVersion (key_S1 "renamed.mf")) session_S1_asked.

(** ** Steps that leave the incoming patch lists alone *)

(** The patchfile [e] is stored and its [fromPv] is a stored node. *)
Definition has_source (st : State) (e : nat) : Prop :=
  ∃ pf u, pfs st !! e = Some pf ∧ fromPv pf = Some u ∧ u < length (pvs st).

(** A step that keeps the patchfiles, creates nodes only with an empty
    [fromPatches] and leaves the [fromPatches] of the others as it was. *)
Definition quiet (st st' : State) : Prop :=
  pfs st' = pfs st ∧ length (pvs st) ≤ length (pvs st') ∧
  ∀ i pv', pvs st' !! i = Some pv' →
    fromPatches pv' = [] ∨ ∃ pv, pvs st !! i = Some pv ∧ fromPatches pv' = fromPatches pv.

(** A quiet step that also keeps the interning table sound. *)
Definition calm (st st' : State) : Prop :=
  quiet st st' ∧ (intern_inv st → intern_inv st').

(** A delta engine that cannot apply any patch, and one whose decompressor
    fails. *)
Definition failing_apply : Externals := {|
  int := decimal;
  decompressFile := λ _ dst w, (true, {[dst]} ∪ w);
  compressFile := λ _ dst _ w, (true, {[dst]} ∪ w);
  patch_apply := λ _ _ _ w, (false, w);
  patch_build := λ _ _ dst w, (true, {[dst]} ∪ w);
  renameTo := λ src dst w, (true, {[dst]} ∪ (w ∖ {[src]}));
  copyTo := λ _ dst w, (true, {[dst]} ∪ w);
  fileSpec_fromFile := λ _ name _, mkFileSpec name 0 ("hash of " +:+ name);
  importDesc_loads := λ f w, bool_decide (f ∈ w);
|}.
Definition failing_decompress : Externals := {|
  int := decimal;
  decompressFile := λ _ _ w, (false, w);
  compressFile := λ _ dst _ w, (true, {[dst]} ∪ w);
  patch_apply := λ _ _ dst w, (true, {[dst]} ∪ w);
  patch_build := λ _ _ dst w, (true, {[dst]} ∪ w);
  renameTo := λ src dst w, (true, {[dst]} ∪ (w ∖ {[src]}));
  copyTo := λ _ dst w, (true, {[dst]} ∪ w);
  fileSpec_fromFile := λ _ name _, mkFileSpec name 0 ("hash of " +:+ name);
  importDesc_loads := λ f w, bool_decide (f ∈ w);
|}.

(** The session S4 after a getFile whose decompression failed. *)
Definition session_S4_failed : State := after (@getFile failing_decompress 2) session_S4.

(** ** Plans *)

(** [plan_from st startPv self plan]: the entries of [plan] name, in order,
    a patchfile and the node it arrives at, from [startPv] to [self]. *)
Inductive plan_from (st : State) (startPv : nat) : nat → list (nat * nat) → Prop :=
  | plan_nil : plan_from st startPv startPv []
  | plan_snoc self u e plan :
      edge st e u self → plan_from st startPv u plan →
      plan_from st startPv self (plan ++ [(e, self)]).

(** The file that getRecreateFilePlan starts from at the node [pv]: its
    tempFile, or else the compressed archive of the package it is current
    for, or else the base archive of the package it is the base of. *)
Definition anchor (st : State) (pv : nat) (f : Filename) : Prop :=
  ∃ v, pvs st !! pv = Some v ∧
    (tempFile v = Some f ∨
     (tempFile v = None ∧
      ∃ c p name, packageCurrent v = Some c ∧ pkgs st !! c = Some p ∧
                  compressedFilename p = Some name ∧ f = Path (packageDir p) name) ∨
     (tempFile v = None ∧ packageCurrent v = None ∧
      ∃ b p base, packageBase v = Some b ∧ pkgs st !! b = Some p ∧
                  baseFile p = Some base ∧
                  f = Path (packageDir p) (filename base +:+ ".pz"))).

(** A node that has neither a tempFile nor a file of a package. *)
Definition missing (st : State) (pv : nat) : Prop :=
  ∃ v, pvs st !! pv = Some v ∧ tempFile v = None ∧
       packageCurrent v = None ∧ packageBase v = None.

(** The node has been given a temporary file. *)
Definition has_temp (st : State) (pv : nat) : Prop :=
  ∃ v n, pvs st !! pv = Some v ∧ tempFile v = Some (Temporary "patch_" n).

(** * Properties *)

Section graph_search.
Context (st : State).

Lemma filter_notin_snoc_le (V l : list nat) x :
  length (filter (λ n, n ∉ (V ++ [x])) l) ≤ length (filter (λ n, n ∉ V) l).
Proof.
  induction l as [|a l IH]; [done|].
  rewrite !filter_cons.
  destruct (decide (a ∉ V)) as [Ha|Ha].
  - destruct (decide (a ∉ (V ++ [x]))); simpl; lia.
  - rewrite decide_False by set_solver. done.
Qed.

Lemma filter_notin_snoc_lt (V l : list nat) x :
  x ∈ l → x ∉ V →
  length (filter (λ n, n ∉ (V ++ [x])) l) < length (filter (λ n, n ∉ V) l).
Proof.
  intros Hx HV. induction l as [|a l IH]; [by apply elem_of_nil in Hx|].
  rewrite !filter_cons. apply elem_of_cons in Hx as [<-|Hx].
  - pose proof (filter_notin_snoc_le V l x).
    rewrite decide_False, decide_True by set_solver. simpl. lia.
  - specialize (IH Hx).
    destruct (decide (a ∉ V)) as [Ha|Ha].
    + destruct (decide (a ∉ (V ++ [x]))); simpl; lia.
    + rewrite decide_False by set_solver. done.
Qed.

Lemma unvisited_snoc V self :
  self < length (pvs st) → self ∉ V →
  unvisited st (V ++ [self]) < unvisited st V.
Proof.
  intros Hlt HV. apply filter_notin_snoc_lt; [|done].
  apply elem_of_seq. lia.
Qed.

Lemma unvisited_le V : unvisited st V ≤ length (pvs st).
Proof.
  unfold unvisited. etrans; [apply length_filter|]. by rewrite length_seq.
Qed.

Lemma chain_weaken V V' s t p :
  (∀ x, x ∈ V → x ∈ V') → chain st V' s t p → chain st V s t p.
Proof.
  intros HV. induction 1; [constructor|].
  econstructor; eauto.
Qed.

Lemma chain_length_nil V s t : chain st V s t [] → t = s.
Proof.
  inversion 1 as [|? ? ? p]; [done|]. by destruct p.
Qed.

(** A path that arrives at [t ≠ s] enters [t] a first time. *)
Lemma chain_first_arrival V s t p :
  chain st V s t p → t ≠ s →
  ∃ e u p1, edge st e u t ∧ chain st (V ++ [t]) s u p1 ∧ (t ∉ V) ∧
            length p1 + 1 ≤ length p.
Proof.
  intros Hc Hts.
  assert (∀ x q, chain st V s x q →
    chain st (V ++ [t]) s x q ∨
    ∃ e u p1, edge st e u t ∧ chain st (V ++ [t]) s u p1 ∧ (t ∉ V) ∧
              length p1 + 1 ≤ length q) as Hgen.
  { clear. induction 1 as [|x u e q Hx He Hq IH].
    - left. constructor.
    - destruct IH as [IH|(e' & u' & p1 & ? & ? & ? & ?)].
      + destruct (decide (x = t)) as [->|Hne].
        * right. exists e, u, q. rewrite length_app. simpl. repeat split; auto.
        * left. econstructor; eauto.
          rewrite elem_of_app, list_elem_of_singleton. tauto.
      + right. exists e', u', p1. rewrite length_app. simpl.
        repeat split; auto. lia. }
  destruct (Hgen _ _ Hc) as [Hc'|?]; [|done].
  exfalso. inversion Hc' as [|? ? ? ? Ht]; [congruence|].
  apply Ht, elem_of_app. right. by apply list_elem_of_singleton.
Qed.

(** *** The loop over [fromPatches] *)

Lemma keepShorter_le {A} (best : option (list A)) cand b :
  best = Some b → ∃ b', keepShorter best cand = Some b' ∧ length b' ≤ length b.
Proof.
  intros ->. unfold keepShorter. case_decide; eexists; split; eauto; lia.
Qed.

(** The loop returns the first of the shortest candidates: it keeps
    [best] unless a candidate is strictly shorter, and among the
    candidates the earliest of minimal length wins. *)
Lemma forPatchChain_first_min rec l : ∀ best r,
  forPatchChain st rec l best = Ok r →
  match r with
  | None => best = None ∧ ∀ e, e ∈ l → candidate st rec e = Ok None
  | Some c =>
      (∀ e, e ∈ l → ∃ o, candidate st rec e = Ok o) ∧
      (∀ e c', e ∈ l → candidate st rec e = Ok (Some c') → length c ≤ length c') ∧
      ((best = Some c) ∨
       (∃ i e, l !! i = Some e ∧ candidate st rec e = Ok (Some c) ∧
          (∀ b, best = Some b → length c < length b) ∧
          (∀ j e' c', j < i → l !! j = Some e' →
             candidate st rec e' = Ok (Some c') → length c < length c')))
  end.
Proof.
  induction l as [|e l IH]; intros best r Hr; simpl in Hr.
  - injection Hr as <-. destruct best as [b|].
    + split_and!; [by intros ? ?%elem_of_nil|by intros ? ? ?%elem_of_nil|by left].
    + split; [done|by intros ? ?%elem_of_nil].
  - assert (∃ o, candidate st rec e = Ok o ∧
              forPatchChain st rec l
                (match o with Some c => keepShorter best c | None => best end) = Ok r)
      as (o & Ho & Hl).
    { unfold candidate. destruct (lookup_pf st e) as [pf| |]; simpl in *; try done.
      destruct (attr (fromPv pf)) as [u| |]; simpl in *; try done.
      destruct (rec u) as [[c|]| |]; simpl in *; try done; eauto. }
    clear Hr. apply IH in Hl. destruct r as [c|].
    + destruct Hl as (Hall & Hmin & Hsel). destruct o as [c0|].
      * assert (length c ≤ length c0 ∧ (∀ b, best = Some b → length c ≤ length b)) as [Hc0 Hb].
        { destruct Hsel as [Hk|(i & e' & _ & _ & Hk & _)].
          - unfold keepShorter in Hk. destruct best as [b|].
            + case_decide; simplify_eq; split; [lia| |lia|]; intros ? [= <-]; lia.
            + simplify_eq. split; [lia|done].
          - unfold keepShorter in Hk. destruct best as [b|].
            + case_decide.
              * specialize (Hk _ eq_refl). split; [lia|]. intros ? [= <-]. lia.
              * specialize (Hk _ eq_refl). split; [lia|]. intros ? [= <-]. lia.
            + specialize (Hk _ eq_refl). split; [lia|done]. }
        split_and!.
        -- intros e' [->|?]%elem_of_cons; eauto.
        -- intros e' c' [->|?]%elem_of_cons Hc'; [|eauto].
           rewrite Ho in Hc'. simplify_eq. done.
        -- destruct Hsel as [Hk|(i & e' & Hi & He' & Hk & Hj)].
           ++ unfold keepShorter in Hk. destruct best as [b|].
              ** case_decide; simplify_eq; [|by left].
                 right. exists 0, e. split_and!; [done|done| |intros; lia].
                 intros ? [= <-]. done.
              ** simplify_eq. right. exists 0, e.
                 split_and!; [done|done|done|intros; lia].
           ++ right. exists (S i), e'. split_and!; [done|done| |].
              ** intros b ->. unfold keepShorter in Hk.
                 case_decide; specialize (Hk _ eq_refl); lia.
              ** intros [|j] e'' c'' Hlt Hj' Hc''; simpl in Hj'.
                 --- simplify_eq. rewrite Ho in Hc''. simplify_eq.
                     unfold keepShorter in Hk. destruct best as [b|].
                     +++ case_decide; specialize (Hk _ eq_refl); lia.
                     +++ specialize (Hk _ eq_refl); lia.
                 --- eapply Hj; [|done..]. lia.
      * split_and!.
        -- intros e' [->|?]%elem_of_cons; eauto.
        -- intros e' c' [->|?]%elem_of_cons Hc'; [congruence|eauto].
        -- destruct Hsel as [?|(i & e' & Hi & He' & Hk & Hj)]; [by left|].
           right. exists (S i), e'. split_and!; [done..|].
           intros [|j] e'' c'' Hlt Hj' Hc''; simpl in Hj'.
           --- simplify_eq. congruence.
           --- eapply Hj; [|done..]. lia.
    + destruct Hl as [Hb Hall]. destruct o as [c0|].
      * unfold keepShorter in Hb. destruct best; [case_decide|]; done.
      * split; [done|]. intros e' [->|?]%elem_of_cons; eauto.
Qed.

(** The loop returns as soon as every candidate does. *)
Lemma forPatchChain_returns rec l : ∀ best,
  (∀ e, e ∈ l → ∃ o, candidate st rec e = Ok o) →
  ∃ r, forPatchChain st rec l best = Ok r.
Proof.
  induction l as [|e l IH]; intros best Hall; simpl; [eauto|].
  destruct (Hall e) as [o Ho]; [by left|].
  unfold candidate in Ho.
  destruct (lookup_pf st e) as [pf| |]; simpl in *; try done.
  destruct (attr (fromPv pf)) as [u| |]; simpl in *; try done.
  destruct (rec u) as [[c|]| |]; simpl in *; try done;
    apply IH; intros; apply Hall; by right.
Qed.

(** The loop never runs out of fuel when the recursive calls do not. *)
Lemma forPatchChain_fuel rec l : ∀ best,
  (∀ u, rec u ≠ OutOfFuel) → forPatchChain st rec l best ≠ OutOfFuel.
Proof.
  induction l as [|e l IH]; intros best Hrec; simpl; [done|].
  unfold lookup_pf. destruct (pfs st !! e) as [pf|]; simpl; [|discriminate].
  destruct (fromPv pf) as [u|]; simpl; [|discriminate].
  pose proof (Hrec u) as Hu.
  destruct (rec u) as [[c|]| |]; simpl; [by apply IH..|discriminate|done].
Qed.

Lemma candidate_eq rec e pf u ru :
  pfs st !! e = Some pf → fromPv pf = Some u → rec u = Ok ru →
  candidate st rec e = Ok ((λ c, c ++ [e]) <$> ru).
Proof.
  intros Hpf Hu Hr. unfold candidate, lookup_pf. rewrite Hpf. simpl.
  rewrite Hu. simpl. by rewrite Hr.
Qed.

(** *** getPatchChain *)

Lemma getPatchChain_rec_fuel fuel : ∀ self startPv V,
  unvisited st V < fuel → getPatchChain_rec fuel st self startPv V ≠ OutOfFuel.
Proof.
  induction fuel as [|fuel IH]; intros self startPv V Hf; [lia|]. simpl.
  case_decide; [discriminate|]. case_decide as HV; [discriminate|].
  unfold lookup_pv. destruct (pvs st !! self) as [pv|] eqn:Hpv; simpl; [|discriminate].
  apply forPatchChain_fuel. intros u. apply IH.
  apply lookup_lt_Some in Hpv.
  pose proof (unvisited_snoc V self Hpv HV). lia.
Qed.

Lemma getPatchChain_rec_spec fuel : ∀ t s V,
  graph_wf st → t = s ∨ t < length (pvs st) → unvisited st V < fuel →
  ∃ r, getPatchChain_rec fuel st t s V = Ok r ∧ shortest st V s t r.
Proof.
  induction fuel as [|fuel IH]; intros t s V Hwf Ht Hf; [lia|]. simpl.
  case_decide as Hts.
  { subst. eexists; split; [done|]. split; [constructor|]. simpl. intros; lia. }
  destruct Ht as [?|Ht]; [done|].
  case_decide as HV.
  { eexists; split; [done|]. intros p Hp.
    inversion Hp; subst; done. }
  destruct (lookup_lt_is_Some_2 _ _ Ht) as [pv Hpv].
  unfold lookup_pv. rewrite Hpv. simpl.
  set (rec := λ u, getPatchChain_rec fuel st u s (V ++ [t])).
  assert (∀ e, e ∈ fromPatches pv → ∃ pf u ru,
            pfs st !! e = Some pf ∧ fromPv pf = Some u ∧
            rec u = Ok ru ∧ shortest st (V ++ [t]) s u ru) as Hcand.
  { intros e He. destruct (Hwf _ _ _ Hpv He) as (pf & u & Hpf & Hu & Hlt).
    destruct (IH u s (V ++ [t]) Hwf) as (ru & Hru & Hsh); [by right| |].
    - pose proof (unvisited_snoc V t Ht HV). lia.
    - by exists pf, u, ru. }
  destruct (forPatchChain_returns rec (fromPatches pv) None) as [r Hr].
  { intros e He. destruct (Hcand e He) as (pf & u & ru & Hpf & Hu & Hru & _).
    erewrite candidate_eq by done. eauto. }
  exists r. split; [done|].
  apply forPatchChain_first_min in Hr. destruct r as [c|]; simpl.
  - destruct Hr as (_ & Hmin & [?|(i & e & Hi & He & _)]); [done|].
    apply list_elem_of_lookup_2 in Hi.
    destruct (Hcand e Hi) as (pf & u & ru & Hpf & Hu & Hru & Hsh).
    erewrite candidate_eq in He by done.
    destruct ru as [c1|]; simplify_eq/=.
    destruct Hsh as [Hc1 _]. split.
    + econstructor; [done|by exists pv, pf|].
      eapply chain_weaken; [|done]. intros x Hx. apply elem_of_app. by left.
    + intros p Hp.
      destruct (chain_first_arrival _ _ _ _ Hp Hts)
        as (e' & u' & p1 & (pv' & pf' & Hpv' & He' & Hpf' & Hu') & Hp1 & _ & Hlen).
      simplify_eq.
      destruct (Hcand e' He') as (pf2 & u2 & ru & Hpf2 & Hu2 & Hru2 & Hsh).
      simplify_eq. destruct ru as [c1'|]; [|by destruct (Hsh p1)].
      destruct Hsh as [_ Hs].
      specialize (Hmin e' (c1' ++ [e']) He').
      erewrite candidate_eq in Hmin by done. specialize (Hmin eq_refl).
      specialize (Hs _ Hp1). rewrite !length_app in *. simpl in *. lia.
  - destruct Hr as [_ Hnone]. intros p Hp.
    destruct (chain_first_arrival _ _ _ _ Hp Hts)
      as (e' & u' & p1 & (pv' & pf' & Hpv' & He' & Hpf' & Hu') & Hp1 & _ & Hlen).
    simplify_eq.
    destruct (Hcand e' He') as (pf & u & ru & Hpf & Hu & Hru & Hsh).
    simplify_eq. specialize (Hnone e' He').
    erewrite candidate_eq in Hnone by done.
    destruct ru; simplify_eq/=. by destruct (Hsh p1).
Qed.

Lemma getPatchChain_spec t s :
  graph_wf st → t = s ∨ t < length (pvs st) →
  ∃ r, getPatchChain st t s = Ok r ∧ shortest st [] s t r.
Proof.
  intros Hwf Ht. apply getPatchChain_rec_spec; [done..|].
  pose proof (unvisited_le []). lia.
Qed.

Lemma path_target_stored s t p : path st s t p → t = s ∨ t < length (pvs st).
Proof.
  inversion 1 as [|? ? ? ? _ (pv & ? & Hpv & _)]; [by left|].
  right. by eapply lookup_lt_Some.
Qed.

Lemma getPatchChain_first_shortest t s c :
  getPatchChain st t s = Ok (Some c) → first_shortest st s t c.
Proof.
  unfold getPatchChain. intros Hc. simpl in Hc.
  case_decide as Hts; [left; by simplify_eq|]. right. split; [done|].
  unfold lookup_pv in Hc. destruct (pvs st !! t) as [pv|]; [|done]. simpl in Hc.
  apply forPatchChain_first_min in Hc.
  destruct Hc as (_ & Hmin & [?|(i & e & Hi & He & _ & Hj)]); [done|].
  exists pv, i, e. split_and!; done.
Qed.

(** *** getRecreateFilePlan *)

Lemma forRecreateFilePlan_fuel rec self l : ∀ best,
  (∀ u, rec u ≠ OutOfFuel) → forRecreateFilePlan st rec self l best ≠ OutOfFuel.
Proof.
  induction l as [|e l IH]; intros best Hrec; simpl; [done|].
  unfold lookup_pf. destruct (pfs st !! e) as [pf|]; simpl; [|discriminate].
  destruct (fromPv pf) as [u|]; simpl; [|discriminate].
  pose proof (Hrec u) as Hu.
  destruct (rec u) as [[[[startFile startPv] plan]|]| |]; simpl;
    [by apply IH..|discriminate|done].
Qed.

Lemma getRecreateFilePlan_rec_fuel fuel : ∀ self V,
  unvisited st V < fuel → getRecreateFilePlan_rec fuel st self V ≠ OutOfFuel.
Proof.
  induction fuel as [|fuel IH]; intros self V Hf; [lia|]. simpl.
  unfold lookup_pv. destruct (pvs st !! self) as [pv|] eqn:Hpv; simpl; [|discriminate].
  destruct (tempFile pv); [discriminate|].
  case_decide as HV; [discriminate|].
  unfold lookup_pkg.
  destruct (packageCurrent pv) as [c|].
  { destruct (pkgs st !! c) as [pc|]; simpl; [|discriminate].
    destruct (compressedFilename pc); discriminate. }
  destruct (packageBase pv) as [b|].
  { destruct (pkgs st !! b) as [pb|]; simpl; [|discriminate].
    destruct (baseFile pb); discriminate. }
  apply forRecreateFilePlan_fuel. intros u. apply IH.
  apply lookup_lt_Some in Hpv.
  pose proof (unvisited_snoc V self Hpv HV). lia.
Qed.

(** *** The checkers *)

Lemma check_graph_wf : check_graph st = true → graph_wf st.
Proof.
  unfold check_graph. rewrite forallb_forall. intros Hall t pv e Hpv He.
  apply list_elem_of_lookup_2, list_elem_of_In, Hall in Hpv.
  rewrite forallb_forall in Hpv. apply list_elem_of_In, Hpv in He.
  unfold edge_ok in He. destruct (pfs st !! e) as [pf|] eqn:Hpf; [|done].
  destruct (fromPv pf) as [u|] eqn:Hu; [|done].
  apply bool_decide_eq_true in He. by exists pf, u.
Qed.

Lemma check_chain_sound s rp : ∀ t,
  check_chain st s t rp = true → chain st [] s t (rev rp).
Proof.
  induction rp as [|e rp IH]; intros t; simpl.
  - intros ->%bool_decide_eq_true. constructor.
  - destruct (pvs st !! t) as [pv|] eqn:Hpv; [|done].
    destruct (pfs st !! e) as [pf|] eqn:Hpf; [|done].
    intros [He Hu]%andb_true_iff. apply bool_decide_eq_true in He.
    destruct (fromPv pf) as [u|] eqn:Hfrom; [|done].
    econstructor; [by intros ?%elem_of_nil|by exists pv, pf|by apply IH].
Qed.

Lemma check_path_sound s t p : check_path st s t p = true → path st s t p.
Proof.
  intros H%check_chain_sound. by rewrite rev_involutive in H.
Qed.

End graph_search.

(** A computation that returns runs into the state [after] it. *)
Lemma run_after {A} (m : M A) (st : State) (a : A) :
  value_of (m st) = Some a → m st = Ok (a, after m st).
Proof.
  unfold after. destruct (m st) as [[a' st']| |]; simpl; [|done..].
  by intros [= ->].
Qed.

(** C1: when some directed path of patch edges leads from [s] to [t],
    [t.getPatchChain(s)] returns a chain from [s] to [t] that is no longer
    than any such path, and among the patchfiles of [t.fromPatches] whose
    candidate chains are shortest it goes through the first one listed. *)
Theorem getPatchChain_shortest (st : State) (s t : nat) (p : list nat) :
  graph_wf st → path st s t p →
  ∃ c, getPatchChain st t s = Ok (Some c) ∧ path st s t c ∧
       length c ≤ length p ∧ first_shortest st s t c.
Proof.
  intros Hwf Hp.
  destruct (getPatchChain_spec st t s Hwf (path_target_stored st s t p Hp))
    as (r & Hr & Hsh).
  destruct r as [c|]; [|by destruct (Hsh p)].
  destruct Hsh as [Hc Hmin]. exists c. split_and!; [done|done|by apply Hmin|].
  by apply getPatchChain_first_shortest.
Qed.

Lemma getPatchChain_shortest_witness :
  ∃ c, getPatchChain graph_S5 3 0 = Ok (Some c) ∧ path graph_S5 0 3 c ∧
       length c ≤ length [0; 1; 2] ∧ first_shortest graph_S5 0 3 c.
Proof.
  apply (getPatchChain_shortest graph_S5 0 3 [0; 1; 2]).
  - apply check_graph_wf. vm_compute. reflexivity.
  - apply check_path_sound. vm_compute. reflexivity.
Defined.

(** C3: getPatchChain and getRecreateFilePlan terminate on every stored
    graph, cyclic or not: every recursive call extends the visited list by
    a stored node that was not in it, so a depth of one more than the number
    of unvisited nodes is never exceeded; and a query for a source from which
    the target cannot be reached returns None. *)
Theorem getPatchChain_terminates (st : State) (target source self : nat) :
  (∀ fuel V, unvisited st V < fuel →
     getPatchChain_rec fuel st target source V ≠ OutOfFuel ∧
     getRecreateFilePlan_rec fuel st self V ≠ OutOfFuel) ∧
  getPatchChain st target source ≠ OutOfFuel ∧
  getRecreateFilePlan st self ≠ OutOfFuel ∧
  (graph_wf st → target < length (pvs st) →
     (∀ p, ¬ path st source target p) →
     getPatchChain st target source = Ok None).
Proof.
  split_and!.
  - intros fuel V Hf. split.
    + by apply getPatchChain_rec_fuel.
    + by apply getRecreateFilePlan_rec_fuel.
  - apply getPatchChain_rec_fuel. pose proof (unvisited_le st []). lia.
  - apply getRecreateFilePlan_rec_fuel. pose proof (unvisited_le st []). lia.
  - intros Hwf Ht Hno.
    destruct (getPatchChain_spec st target source Hwf (or_intror Ht)) as (r & Hr & Hsh).
    destruct r as [c|]; [|done]. destruct Hsh as [Hc _]. by destruct (Hno c).
Qed.

Lemma graph_S6_closed V s t p :
  chain graph_S6 V s t p → t < 2 → s < 2.
Proof.
  induction 1 as [|t u e p _ (pv & pf & Hpv & He & Hpf & Hu) _ IH]; [done|].
  intros Ht. apply IH.
  destruct t as [|[|t]]; [| |lia]; simpl in Hpv; simplify_eq;
    apply list_elem_of_singleton in He; subst; simpl in Hpf; simplify_eq;
    simpl in Hu; simplify_eq; lia.
Qed.

Lemma getPatchChain_terminates_witness :
  getPatchChain graph_S6 0 2 = Ok None.
Proof.
  apply (getPatchChain_terminates graph_S6 0 2 0).
  - apply check_graph_wf. vm_compute. reflexivity.
  - simpl. lia.
  - intros p Hp. apply graph_S6_closed in Hp; lia.
Defined.

(** C4: [target.getPatchChain(source)] returns None exactly when no
    directed path of patch edges leads from [source] to [target], and
    returns the empty chain exactly when [target] is [source]. *)
Theorem getPatchChain_None_iff (st : State) (target source : nat) :
  graph_wf st → target < length (pvs st) →
  (getPatchChain st target source = Ok None ↔ ¬ ∃ p, path st source target p) ∧
  (getPatchChain st target source = Ok (Some []) ↔ target = source).
Proof.
  intros Hwf Ht.
  destruct (getPatchChain_spec st target source Hwf (or_intror Ht)) as (r & Hr & Hsh).
  split; split.
  - intros Hn [p Hp]. rewrite Hr in Hn. simplify_eq. by destruct (Hsh p).
  - intros Hno. rewrite Hr. destruct r as [c|]; [|done].
    destruct Hsh as [Hc _]. destruct Hno. by exists c.
  - intros Hn. rewrite Hr in Hn. simplify_eq. destruct Hsh as [Hc _].
    by apply chain_length_nil in Hc.
  - intros ->. unfold getPatchChain. simpl. by rewrite decide_True.
Qed.

Lemma getPatchChain_None_iff_witness :
  (getPatchChain graph_S5 0 3 = Ok None ↔ ¬ ∃ p, path graph_S5 3 0 p) ∧
  (getPatchChain graph_S5 0 3 = Ok (Some []) ↔ 0 = 3).
Proof.
  apply (getPatchChain_None_iff graph_S5 0 3).
  - apply check_graph_wf. vm_compute. reflexivity.
  - simpl. lia.
Defined.

(** ** getFile *)

Section getFile.
Context `{Externals}.

Lemma getRecreateFilePlan_tempFile st self pv f :
  pvs st !! self = Some pv → tempFile pv = Some f →
  getRecreateFilePlan st self = Ok (Some (f, self, [])).
Proof.
  intros Hpv Hf. unfold getRecreateFilePlan. simpl.
  unfold lookup_pv. rewrite Hpv. simpl. by rewrite Hf.
Qed.

(** A node whose tempFile is set is a cache hit: nothing is decompressed
    or applied and the state is left as it is. *)
Lemma getFile_cached st self pv f :
  pvs st !! self = Some pv → tempFile pv = Some f → getExtension f ≠ "pz" →
  getFile self st = Ok (Some f, st).
Proof.
  intros Hpv Hf Hext. unfold getFile, mbind, lift.
  rewrite (getRecreateFilePlan_tempFile st self pv f Hpv Hf).
  unfold decompressStart. by rewrite decide_False.
Qed.

Lemma forRecreateFilePlan_nonempty st rec self l : ∀ best r,
  forRecreateFilePlan st rec self l best = Ok (Some r) →
  best = Some r ∨ r.2 ≠ [].
Proof.
  induction l as [|e l IH]; intros best r Hr; simpl in Hr.
  - left. congruence.
  - destruct (lookup_pf st e) as [pf| |]; simpl in Hr; [|done..].
    destruct (attr (fromPv pf)) as [u| |]; simpl in Hr; [|done..].
    destruct (rec u) as [[[[startFile startPv] plan]|]| |]; simpl in Hr; [| |done..].
    + apply IH in Hr as [Hk|?]; [|by right].
      unfold keepShorterPlan in Hk. destruct best as [b|].
      * case_decide; simplify_eq; [right; by destruct plan|by left].
      * simplify_eq. right. by destruct plan.
    + by apply IH.
Qed.

(** An empty plan starts at the node itself. *)
Lemma getRecreateFilePlan_empty st self startFile startPv :
  getRecreateFilePlan st self = Ok (Some (startFile, startPv, [])) → startPv = self.
Proof.
  unfold getRecreateFilePlan. simpl. intros Hr.
  destruct (lookup_pv st self) as [pv| |]; simpl in Hr; [|done..].
  destruct (tempFile pv); [by simplify_eq|].
  destruct (packageCurrent pv) as [c|].
  { destruct (lookup_pkg st c) as [pc| |]; simpl in Hr; [|done..].
    destruct (compressedFilename pc); by simplify_eq. }
  destruct (packageBase pv) as [b|].
  { destruct (lookup_pkg st b) as [pb| |]; simpl in Hr; [|done..].
    destruct (attr (baseFile pb)); simpl in Hr; by simplify_eq. }
  apply forRecreateFilePlan_nonempty in Hr as [?|?]; done.
Qed.

(** The file that a non-empty plan ends with is a fresh temporary. *)
Lemma forPlan_temporary plan : ∀ prevFile st f st',
  forPlan plan prevFile st = Ok (Some f, st') →
  plan = [] ∧ f = prevFile ∧ st' = st ∨ ∃ n, f = Temporary "patch_" n.
Proof.
  induction plan as [|[patchfile pv] plan IH]; intros prevFile st f st' Hr.
  - left. unfold forPlan, mret in Hr. by simplify_eq.
  - right. simpl in Hr. unfold mbind, lift in Hr.
    destruct (lookup_pf st patchfile) as [pf| |]; [|done..].
    destruct (lookup_pkg st (pf_package pf)) as [package| |]; [|done..].
    destruct (attr (pf_file pf)) as [file| |]; [|done..].
    unfold applyPatch, mbind, temporary, call in Hr. simpl in Hr.
    destruct (patch_apply _ _ _ _) as [[|] w]; simpl in Hr; [|by simplify_eq].
    destruct (update_pv pv _ _) as [[[] st1]| |]; [|done..].
    apply IH in Hr as [(-> & -> & ->)|?]; eauto.
Qed.

Lemma decompressStart_result startFile startPv st g st1 :
  decompressStart startFile startPv st = Ok (Some g, st1) →
  (g = startFile ∧ st1 = st) ∨
  (∃ n pv, g = Temporary "patch_" n ∧ pvs st1 !! startPv = Some pv ∧
           tempFile pv = Some g).
Proof.
  unfold decompressStart. case_decide; [|left; unfold mret in *; by simplify_eq].
  intros Hr. right. unfold mbind, lift in Hr.
  destruct (lookup_pv st startPv) as [spv| |] eqn:Hspv; [|done..].
  destruct (tempFile spv); [done|].
  unfold temporary, update_pv, call in Hr. simpl in Hr.
  destruct (pvs st !! startPv) as [pv|] eqn:Hpv; [|done]. simpl in Hr.
  destruct (decompressFile _ _ _) as [[|] w]; unfold mret in Hr; simplify_eq/=.
  eexists _, _. split_and!;
    [done|apply list_lookup_insert_eq; by eapply lookup_lt_Some|done].
Qed.

Lemma applyPlan_result self plan g st1 f st' :
  applyPlan self plan g st1 = Ok (Some f, st') →
  (plan = [] ∧ f = g ∧ st' = st1) ∨
  (∃ n me, f = Temporary "patch_" n ∧ pvs st' !! self = Some me ∧
           tempFile me = Some f).
Proof.
  unfold applyPlan. destruct plan as [|x plan].
  { left. unfold mret in *. by simplify_eq. }
  intros Hr. right. unfold mbind, lift in Hr.
  destruct (forPlan (x :: plan) g st1) as [[[prevFile|] st2]| |] eqn:Hfor;
    [| |done..]; [|unfold mret in Hr; by simplify_eq].
  unfold lookup_pv in Hr. destruct (pvs st2 !! self) as [me|] eqn:Hme; [|done].
  case_decide as Hassert; [|done]. unfold mret in Hr. simplify_eq.
  destruct Hassert as [_ Htemp].
  apply forPlan_temporary in Hfor as [(? & _)|[n ->]]; [done|].
  by exists n, me.
Qed.

End getFile.

(** C7: after [self.getFile()] has returned a file, a second call returns
    the same file and leaves the whole state as it is: no patch is applied
    again, nothing is decompressed again, no temporary name is handed out. *)
Theorem getFile_again `{Externals} (st : State) (self : nat) (f : Filename) (st' : State) :
  getFile self st = Ok (Some f, st') →
  getFile self st' = Ok (Some f, st').
Proof.
  intros Hfirst. pose proof Hfirst as Hcopy.
  unfold getFile, mbind, lift in Hfirst.
  destruct (getRecreateFilePlan st self) as [[[[startFile startPv] plan]|]| |] eqn:Hplan;
    [|done..].
  destruct (decompressStart startFile startPv st) as [[[g|] st1]| |] eqn:Hstart;
    [| |done..]; [|unfold mret in Hfirst; by simplify_eq].
  apply applyPlan_result in Hfirst as [(-> & -> & ->)|(n & me & -> & Hme & Htemp)].
  - apply getRecreateFilePlan_empty in Hplan as ->.
    apply decompressStart_result in Hstart as [[-> ->]|(n & pv & -> & Hpv & Htemp)].
    + done.
    + by eapply getFile_cached.
  - by eapply getFile_cached.
Qed.

Lemma getFile_again_witness :
  @getFile working 2 session_S4_v2 = Ok (Some (Temporary "patch_" 2), session_S4_v2).
Proof.
  apply (@getFile_again working session_S4 2).
  apply (run_after (@getFile working 2)). vm_compute. reflexivity.
Defined.

(** C2: a node from which no anchored file can be reached has no plan, and
    getFile then reads [startFile.getExtension()] on None: it raises
    AttributeError where its docstring promises None. *)
Theorem getFile_no_plan `{Externals} (st : State) (self : nat) :
  getRecreateFilePlan st self = Ok None → getFile self st = Raise AttributeError.
Proof.
  intros Hplan. unfold getFile, mbind, lift. by rewrite Hplan.
Qed.

Lemma getFile_no_plan_witness :
  getRecreateFilePlan session_orphan 0 = Ok None ∧
  @getFile working 0 session_orphan = Raise AttributeError.
Proof.
  split; [reflexivity|].
  apply (@getFile_no_plan working session_orphan 0). reflexivity.
Defined.

Example getFile_S4_trace :
  trace session_S4_v2 =
       [EvDecompress (Path "dir" "pkg.mf.base.pz") (Temporary "patch_" 0);
         EvApply (Path "dir" "pkg.mf.1.patch.pz") (Temporary "patch_" 0)
                 (Temporary "patch_" 1);
         EvApply (Path "dir" "pkg.mf.2.patch.pz") (Temporary "patch_" 1)
                 (Temporary "patch_" 2)].
Proof. vm_compute. reflexivity. Qed.

(** ** Interning and edge wiring *)

Lemma mbind_Ok {A B} (m : M A) (k : A → M B) st b st' :
  mbind m k st = Ok (b, st') → ∃ a st1, m st = Ok (a, st1) ∧ k a st1 = Ok (b, st').
Proof.
  unfold mbind. destruct (m st) as [[a st1]| |]; [|done..]. eauto.
Qed.

Lemma lift_Ok {A} (f : State → result A) st a st' :
  lift f st = Ok (a, st') → f st = Ok a ∧ st' = st.
Proof.
  unfold lift. destruct (f st); [|done..]. by intros [= -> ->].
Qed.

(** One step of symbolic execution of a bind. *)
Ltac mstep H a st1 H1 :=
  apply mbind_Ok in H as (a & st1 & H1 & H).

Lemma grows_refl st : grows st st.
Proof. split; [done|]. intros i pv Hpv. by exists pv. Qed.

Lemma grows_trans st1 st2 st3 : grows st1 st2 → grows st2 st3 → grows st1 st3.
Proof.
  intros [Hk1 Hp1] [Hk2 Hp2]. split; [by eauto|].
  intros i pv Hpv.
  destruct (Hp1 _ _ Hpv) as (pv2 & Hpv2 & Hkey2 & Hfile2 & Hfrom2 & Hto2).
  destruct (Hp2 _ _ Hpv2) as (pv3 & Hpv3 & Hkey3 & Hfile3 & Hfrom3 & Hto3).
  exists pv3. split_and!; [done|congruence|congruence|by eauto|by eauto].
Qed.

Lemma same_patches_refl st : same_patches st st.
Proof. split; [done|]. intros i p Hp. by exists p. Qed.

Lemma same_patches_trans st1 st2 st3 :
  same_patches st1 st2 → same_patches st2 st3 → same_patches st1 st3.
Proof.
  intros [Hl1 Hp1] [Hl2 Hp2]. split; [congruence|].
  intros i p3 Hp3. destruct (Hp2 _ _ Hp3) as (p2 & Hq2 & ? & ?).
  destruct (Hp1 _ _ Hq2) as (p1 & Hq1 & ? & ?).
  exists p1. split_and!; [done|congruence..].
Qed.

Lemma wired_grows st st' e :
  grows st st' → pfs st' !! e = pfs st !! e → wired st e → wired st' e.
Proof.
  intros [_ Hp] Hpf (pf & u & t & pu & pt & src & tgt & He & Hu & Ht & Hpu & Hpt &
                     Hto & Hfrom & Hsrc & Htgt & Hhu & Hht).
  destruct (Hp _ _ Hpu) as (pu' & Hpu' & _ & Hfu & _ & Htou).
  destruct (Hp _ _ Hpt) as (pt' & Hpt' & _ & Hft & Hfromt & _).
  exists pf, u, t, pu', pt', src, tgt.
  split_and!; [congruence|done|done|done|done|by eauto|by eauto|done|done|
               congruence|congruence].
Qed.

Lemma node_step_refl st : node_step st st.
Proof. split_and!; [apply grows_refl|done..]. Qed.

Lemma node_step_trans st1 st2 st3 :
  node_step st1 st2 → node_step st2 st3 → node_step st1 st3.
Proof.
  intros (Hg1 & Hi1 & Hf1 & Hk1 & Hl1) (Hg2 & Hi2 & Hf2 & Hk2 & Hl2).
  split_and!; [by eapply grows_trans|by auto|congruence..].
Qed.

Lemma node_step_same st st' :
  pvs st' = pvs st → packageVersions st' = packageVersions st →
  pfs st' = pfs st → pkgs st' = pkgs st → packages st' = packages st →
  node_step st st'.
Proof.
  intros Hp Hk Hf Hg Hl. split_and!; [|unfold intern_inv; by rewrite Hp, Hk|done..].
  split; [by rewrite Hk|]. intros i pv Hpv. exists pv. by rewrite Hp.
Qed.

Lemma intern_inv_same st st' :
  pvs st' = pvs st → packageVersions st' = packageVersions st →
  intern_inv st → intern_inv st'.
Proof. intros Hp Hk. unfold intern_inv. by rewrite Hp, Hk. Qed.

Lemma update_pv_Ok r f st st' :
  update_pv r f st = Ok (tt, st') →
  ∃ pv, pvs st !! r = Some pv ∧ st' = set_pvs (λ l, <[r := f pv]> l) st.
Proof.
  unfold update_pv. destruct (pvs st !! r) as [pv|]; [|done].
  intros [= <-]. by exists pv.
Qed.

Lemma update_pf_Ok r f st st' :
  update_pf r f st = Ok (tt, st') →
  ∃ pf, pfs st !! r = Some pf ∧ st' = set_pfs (λ l, <[r := f pf]> l) st.
Proof.
  unfold update_pf. destruct (pfs st !! r) as [pf|]; [|done].
  intros [= <-]. by exists pf.
Qed.

Lemma update_pkg_Ok r f st st' :
  update_pkg r f st = Ok (tt, st') →
  ∃ p, pkgs st !! r = Some p ∧ st' = set_pkgs (λ l, <[r := f p]> l) st.
Proof.
  unfold update_pkg. destruct (pkgs st !! r) as [p|]; [|done].
  intros [= <-]. by exists p.
Qed.

Lemma update_pv_node_step r f st st' :
  gentle f → update_pv r f st = Ok (tt, st') →
  node_step st st' ∧ ∃ pv, pvs st !! r = Some pv ∧ pvs st' !! r = Some (f pv).
Proof.
  intros Hf (pv & Hpv & ->)%update_pv_Ok.
  pose proof (lookup_lt_Some _ _ _ Hpv) as Hlt.
  destruct (Hf pv) as (Hkey & Hfile & Hfrom & Hto).
  split; [|exists pv; split; [done|by apply list_lookup_insert_eq]].
  split_and!; [split| |done..]; simpl.
  - done.
  - intros i pv' Hpv'. destruct (decide (i = r)) as [->|Hne].
    + rewrite Hpv in Hpv'. injection Hpv' as <-. exists (f pv).
      by rewrite list_lookup_insert_eq.
    + exists pv'. by rewrite list_lookup_insert_ne.
  - intros [Hk Hp]. split; simpl.
    + intros k i Hki. destruct (Hk _ _ Hki) as (pv' & Hpv' & Hkey').
      destruct (decide (i = r)) as [->|Hne].
      * rewrite Hpv in Hpv'. injection Hpv' as <-. exists (f pv).
        split; [by apply list_lookup_insert_eq|congruence].
      * exists pv'. by rewrite list_lookup_insert_ne.
    + intros i pv' Hpv'. destruct (decide (i = r)) as [->|Hne].
      * rewrite list_lookup_insert_eq in Hpv' by done. injection Hpv' as <-.
        rewrite Hkey. by apply Hp.
      * rewrite list_lookup_insert_ne in Hpv' by done. by apply Hp.
Qed.

Lemma getPackageVersion_Ok packageName platform version hostUrl file st u st' :
  getPackageVersion (packageName, platform, version, hostUrl, file) st = Ok (u, st') →
  intern_inv st →
  ∃ f pv, file = Some f ∧ node_step st st' ∧ intern_inv st' ∧
          packageVersions st' !! (packageName, platform, version, hostUrl, hash f) = Some u ∧
          pvs st' !! u = Some pv ∧
          key_of pv = (packageName, platform, version, hostUrl, hash f).
Proof.
  unfold getPackageVersion. intros Hr Hinv.
  mstep Hr f st1 Hf. apply lift_Ok in Hf as [Hf ->].
  destruct file as [f'|]; simplify_eq/=.
  set (k := (packageName, platform, version, hostUrl, hash f)) in *.
  destruct (packageVersions st !! k) as [i|] eqn:Hk; simplify_eq.
  - destruct Hinv as [Hk1 Hk2]. destruct (Hk1 _ _ Hk) as (pv & Hpv & Hkey).
    exists f, pv. split_and!; [done|apply node_step_refl|done..].
  - set (new := newPackageVersion packageName platform version hostUrl f).
    assert (key_of new = k) as Hnew by done.
    destruct Hinv as [Hk1 Hk2].
    assert (intern_inv
      (set_packageVersions (λ m, <[k:=length (pvs st)]> m)
         (set_pvs (λ l, l ++ [new]) st))) as Hinv'.
    { split; simpl.
      - intros k' i Hki. destruct (decide (k' = k)) as [->|Hne].
        + rewrite lookup_insert_eq in Hki. simplify_eq. exists new.
          split; [|done]. rewrite lookup_app_r by done.
          by rewrite Nat.sub_diag.
        + rewrite lookup_insert_ne in Hki by done.
          destruct (Hk1 _ _ Hki) as (pv & Hpv & Hkey). exists pv.
          split; [|done]. by apply lookup_app_l_Some.
      - intros i pv Hpv. apply lookup_app_Some in Hpv as [Hpv|[Hge Hpv]].
        + assert (key_of pv ≠ k) as Hne.
          { intros Heq. apply Hk2 in Hpv. congruence. }
          rewrite lookup_insert_ne by done. by apply Hk2.
        + apply list_lookup_singleton_Some in Hpv as [Hi <-].
          rewrite Hnew, lookup_insert_eq. f_equal. lia. }
    exists f, new. split_and!; [done| |done|simpl; by rewrite lookup_insert_eq| |done].
    + split_and!; [split|done..]; simpl.
      * intros k' i Hki. rewrite lookup_insert_ne; [done|congruence].
      * intros i pv Hpv. exists pv. split_and!; [|done..].
        by apply lookup_app_l_Some.
    + simpl. rewrite lookup_app_r by done. by rewrite Nat.sub_diag.
Qed.

Lemma gentle_set_toPatches e :
  gentle (λ pv, set_toPatches (toPatches pv ++ [e]) pv).
Proof.
  intros pv. split_and!; [done..|]. simpl. intros e' He'.
  apply elem_of_app. by left.
Qed.

Lemma gentle_set_fromPatches e :
  gentle (λ pv, set_fromPatches (fromPatches pv ++ [e]) pv).
Proof.
  intros pv. split_and!; [done|done| |done]. simpl. intros e' He'.
  apply elem_of_app. by left.
Qed.

Lemma gentle_set_printName n : gentle (set_printName n).
Proof. by intros pv. Qed.
Lemma gentle_set_packageCurrent p : gentle (set_packageCurrent p).
Proof. by intros pv. Qed.
Lemma gentle_set_packageBase p : gentle (set_packageBase p).
Proof. by intros pv. Qed.
Lemma gentle_set_packageTop p : gentle (set_packageTop p).
Proof. by intros pv. Qed.
Lemma gentle_set_tempFile t : gentle (set_tempFile t).
Proof. by intros pv. Qed.

Lemma update_pf_node st st' r f :
  update_pf r f st = Ok (tt, st') →
  pvs st' = pvs st ∧ packageVersions st' = packageVersions st ∧
  pkgs st' = pkgs st ∧ packages st' = packages st ∧
  ∃ pf, pfs st !! r = Some pf ∧ pfs st' = <[r := f pf]> (pfs st).
Proof.
  intros (pf & Hpf & ->)%update_pf_Ok. split_and!; [done..|]. by exists pf.
Qed.

(** recordPatchfile wires the patchfile it is given and leaves the wiring
    of every other patchfile as it was. *)
Lemma recordPatchfile_spec e st st' :
  intern_inv st → recordPatchfile e st = Ok (tt, st') →
  intern_inv st' ∧ grows st st' ∧ wired st' e ∧
  (∀ e', e' ≠ e → pfs st' !! e' = pfs st !! e') ∧
  pkgs st' = pkgs st ∧ packages st' = packages st.
Proof.
  intros Hinv Hr. unfold recordPatchfile in Hr.
  mstep Hr pf st0 Hpf. apply lift_Ok in Hpf as [Hpf ->].
  mstep Hr file st0 Hfile. apply lift_Ok in Hfile as [Hfile ->].
  mstep Hr x st1 Hst1. injection Hst1 as _ <-.
  mstep Hr u st2 Hu.
  apply getPackageVersion_Ok in Hu as (src & pu & Hsrc & Hstep2 & Hinv2 & _ & Hpu & Hku);
    [|by eapply intern_inv_same].
  mstep Hr x3 st3 Hst3. destruct x3.
  apply update_pf_node in Hst3 as (Hp3 & Hk3 & Hg3 & Hl3 & pf3 & Hpf3 & Hpfs3).
  mstep Hr x4 st4 Hst4. destruct x4.
  apply update_pv_node_step in Hst4 as [Hstep4 (pu4 & Hpu4 & Hpu4')];
    [|apply gentle_set_toPatches].
  mstep Hr t st5 Ht.
  assert (intern_inv st4) as Hinv4.
  { apply Hstep4. by eapply intern_inv_same. }
  apply getPackageVersion_Ok in Ht as (tgt & pt & Htgt & Hstep5 & Hinv5 & _ & Hpt & Hkt);
    [|done].
  mstep Hr x6 st6 Hst6. destruct x6.
  apply update_pf_node in Hst6 as (Hp6 & Hk6 & Hg6 & Hl6 & pf6 & Hpf6 & Hpfs6).
  mstep Hr x7 st7 Hst7. destruct x7.
  apply update_pv_node_step in Hst7 as [Hstep7 (pt7 & Hpt7 & Hpt7')];
    [|apply gentle_set_fromPatches].
  apply update_pv_node_step in Hr as [Hstep8 _]; [|apply gentle_set_printName].
  (* the states in between *)
  assert (node_step st st2) as Hs02.
  { eapply node_step_trans; [|done]. by apply node_step_same. }
  assert (grows st2 st3) as Hg23.
  { split; [by rewrite Hk3|]. intros i pv Hpv. exists pv. by rewrite Hp3. }
  assert (grows st5 st6) as Hg56.
  { split; [by rewrite Hk6|]. intros i pv Hpv. exists pv. by rewrite Hp6. }
  assert (grows st4 st') as Hg4.
  { eapply grows_trans; [apply Hstep5|]. eapply grows_trans; [apply Hg56|].
    eapply grows_trans; [apply Hstep7|apply Hstep8]. }
  assert (grows st st') as Hg.
  { eapply grows_trans; [apply Hs02|]. eapply grows_trans; [apply Hg23|].
    eapply grows_trans; [apply Hstep4|apply Hg4]. }
  assert (pfs st2 = pfs st) as Hf2.
  { destruct Hstep2 as (_ & _ & -> & _). done. }
  assert (pf3 = pf) as ->.
  { rewrite Hf2 in Hpf3. unfold lookup_pf in Hpf. rewrite Hpf3 in Hpf. congruence. }
  assert (pfs st5 = <[e:=set_fromPv (Some u) pf]> (pfs st)) as Hf5.
  { destruct Hstep5 as (_ & _ & -> & _). destruct Hstep4 as (_ & _ & -> & _).
    by rewrite Hpfs3, Hf2. }
  assert (pf6 = set_fromPv (Some u) pf) as ->.
  { rewrite Hf5, list_lookup_insert_eq in Hpf6; [congruence|].
    rewrite <-Hf2. by eapply lookup_lt_Some. }
  assert (pfs st' = <[e:=set_toPv (Some t) (set_fromPv (Some u) pf)]> (pfs st)) as Hf'.
  { destruct Hstep8 as (_ & _ & -> & _). destruct Hstep7 as (_ & _ & -> & _).
    rewrite Hpfs6, Hf5. by rewrite list_insert_insert_eq. }
  assert (e < length (pfs st)) as Hlt.
  { rewrite <-Hf2. by eapply lookup_lt_Some. }
  split_and!.
  - apply Hstep8, Hstep7. eapply intern_inv_same; [done..|]. done.
  - done.
  - destruct Hg4 as [_ Hg4]. destruct (Hg4 _ _ Hpu4') as (pu' & Hpu' & _ & Hfile' & _ & Hto').
    destruct Hstep8 as [[_ Hg8] _].
    destruct (Hg8 _ _ Hpt7') as (pt' & Hpt' & _ & Hfilet & Hfrom' & _).
    exists (set_toPv (Some t) (set_fromPv (Some u) pf)), u, t, pu', pt', src, tgt.
    assert (pu4 = pu) as -> by (rewrite Hp3 in Hpu4; congruence).
    assert (pt7 = pt) as -> by (rewrite Hp6 in Hpt7; congruence).
    split_and!; try done.
    + rewrite Hf'. by apply list_lookup_insert_eq.
    + apply Hto'. simpl. apply elem_of_app. right. by apply list_elem_of_singleton.
    + apply Hfrom'. simpl. apply elem_of_app. right. by apply list_elem_of_singleton.
    + rewrite Hfile'. simpl. by injection Hku.
    + rewrite Hfilet. simpl. by injection Hkt.
  - intros e' Hne. rewrite Hf'. by rewrite list_lookup_insert_ne.
  - destruct Hstep8 as (_ & _ & _ & -> & _). destruct Hstep7 as (_ & _ & _ & -> & _).
    rewrite Hg6. destruct Hstep5 as (_ & _ & _ & -> & _).
    destruct Hstep4 as (_ & _ & _ & -> & _). rewrite Hg3.
    by destruct Hstep2 as (_ & _ & _ & -> & _).
  - destruct Hstep8 as (_ & _ & _ & _ & ->). destruct Hstep7 as (_ & _ & _ & _ & ->).
    rewrite Hl6. destruct Hstep5 as (_ & _ & _ & _ & ->).
    destruct Hstep4 as (_ & _ & _ & _ & ->). rewrite Hl3.
    by destruct Hstep2 as (_ & _ & _ & _ & ->).
Qed.

Lemma grows_same st st' :
  pvs st' = pvs st → packageVersions st' = packageVersions st → grows st st'.
Proof.
  intros Hp Hk. split; [by rewrite Hk|]. intros i pv Hpv. exists pv. by rewrite Hp.
Qed.

Lemma wire_step_refl st : wire_step st st.
Proof.
  intros Hinv. split_and!; [done|apply grows_refl|apply same_patches_refl|done].
Qed.

Lemma wire_step_trans st1 st2 st3 :
  wire_step st1 st2 → wire_step st2 st3 → wire_step st1 st3.
Proof.
  intros H12 H23 Hinv. destruct (H12 Hinv) as (Hinv2 & Hg2 & Hs2 & Hw2).
  destruct (H23 Hinv2) as (Hinv3 & Hg3 & Hs3 & Hw3).
  split_and!; [done|by eapply grows_trans|by eapply same_patches_trans|by auto].
Qed.

Lemma node_step_wire_step st st' : node_step st st' → wire_step st st'.
Proof.
  intros (Hg & Hi & Hf & Hk & Hl) Hinv. split_and!; [by auto|done| |].
  - split; [done|]. rewrite Hk. intros i p Hp. by exists p.
  - intros e. apply wired_grows; [done|by rewrite Hf].
Qed.

Lemma update_pkg_wire_step r f st st' :
  (∀ p, patches (f p) = patches p ∧ baseFile (f p) = baseFile p) →
  update_pkg r f st = Ok (tt, st') → wire_step st st'.
Proof.
  intros Hf (p & Hp & ->)%update_pkg_Ok Hinv.
  split_and!; [by eapply intern_inv_same|by apply grows_same| |].
  2:{ intros e. apply wired_grows; [by apply grows_same|done]. }
  split; [done|]. simpl. intros i p' Hp'.
  destruct (decide (i = r)) as [->|Hne].
  - rewrite list_lookup_insert_eq in Hp' by (by eapply lookup_lt_Some).
    injection Hp' as <-. exists p. split; [done|apply Hf].
  - rewrite list_lookup_insert_ne in Hp' by done. by exists p'.
Qed.

Lemma recordPatchfile_wire_step e st st' :
  recordPatchfile e st = Ok (tt, st') →
  wire_step st st' ∧ (intern_inv st → wired st' e).
Proof.
  intros Hr. split.
  - intros Hinv.
    destruct (recordPatchfile_spec e st st' Hinv Hr) as (Hinv' & Hg & Hw & Hf & Hk & Hl).
    split_and!; [done|done| |].
    + split; [done|]. rewrite Hk. intros i p Hp. by exists p.
    + intros e' He'. destruct (decide (e' = e)) as [->|Hne]; [done|].
      eapply wired_grows; [done|by apply Hf|done].
  - intros Hinv. by destruct (recordPatchfile_spec e st st' Hinv Hr) as (_ & _ & Hw & _).
Qed.

Lemma for_each_recordPatchfile l : ∀ st st',
  for_each l recordPatchfile st = Ok (tt, st') →
  wire_step st st' ∧ (intern_inv st → ∀ e, e ∈ l → wired st' e).
Proof.
  induction l as [|e l IH]; intros st st' Hr; simpl in Hr.
  - injection Hr as <-. split; [apply wire_step_refl|]. by intros _ ? ?%elem_of_nil.
  - mstep Hr x st1 He. destruct x.
    apply recordPatchfile_wire_step in He as [Hstep1 Hw1].
    apply IH in Hr as [Hstep2 Hw2]. split; [by eapply wire_step_trans|].
    intros Hinv e' [->|He']%elem_of_cons.
    + destruct (Hstep1 Hinv) as (Hinv1 & _). destruct (Hstep2 Hinv1) as (_ & _ & _ & Hw).
      by apply Hw, Hw1.
    + destruct (Hstep1 Hinv) as (Hinv1 & _). by apply Hw2.
Qed.

Lemma getPackageVersion_found packageName platform version hostUrl f st u u' st' :
  packageVersions st !! (packageName, platform, version, hostUrl, hash f) = Some u →
  getPackageVersion (packageName, platform, version, hostUrl, Some f) st = Ok (u', st') →
  u' = u.
Proof.
  intros Hk Hr. unfold getPackageVersion, mbind, lift in Hr. simpl in Hr.
  rewrite Hk in Hr. congruence.
Qed.

Lemma for_each_recordPatchfile_pkgs l : ∀ st st',
  intern_inv st → for_each l recordPatchfile st = Ok (tt, st') → pkgs st' = pkgs st.
Proof.
  induction l as [|e l IH]; intros st st' Hinv Hr; simpl in Hr.
  - by injection Hr as <-.
  - mstep Hr x st1 He. destruct x.
    destruct (recordPatchfile_spec e st st1 Hinv He) as (Hinv1 & _ & _ & _ & Hk & _).
    rewrite <-Hk. by apply IH.
Qed.

Lemma pkg_at_node_step y q st0 st st' :
  node_step st st' → pkg_at y q st0 st → pkg_at y q st0 st'.
Proof. intros (_ & _ & _ & Hk & _). unfold pkg_at. by rewrite Hk. Qed.

Lemma pkg_at_update y q f st0 st st' :
  update_pkg y f st = Ok (tt, st') → pkg_at y q st0 st → pkg_at y (f q) st0 st'.
Proof.
  intros (p & Hp & ->)%update_pkg_Ok [Hq Hother]. split; simpl.
  - rewrite list_lookup_insert_eq by (by eapply lookup_lt_Some). congruence.
  - intros i Hi. rewrite list_lookup_insert_ne by done. by apply Hother.
Qed.

Lemma buildPatchChains_body_spec y st st' :
  intern_inv st → buildPatchChains_body y st = Ok (tt, st') →
  (intern_inv st' ∧ grows st st' ∧ same_patches st st' ∧
   (∀ e, wired st e → wired st' e)) ∧
  (∀ p e, pkgs st !! y = Some p → is_Some (baseFile p) → e ∈ patches p → wired st' e) ∧
  (∀ i p, pkgs st !! i = Some p →
     ∃ p', pkgs st' !! i = Some p' ∧ strip p' = strip p ∧
           (i ≠ y → p' = p) ∧
           (i = y → top_is_current p → is_Some (topPv p') ∧ topPv p' = currentPv p')).
Proof.
  intros Hinv Hr. unfold buildPatchChains_body in Hr.
  mstep Hr p st0 Hp. apply lift_Ok in Hp as [Hp ->].
  unfold lookup_pkg in Hp. destruct (pkgs st !! y) as [p0|] eqn:Hp0; [|done].
  injection Hp as ->.
  destruct (baseFile p) as [base|] eqn:Hbase.
  2:{ injection Hr as <-. split; [|split].
      - by apply wire_step_refl.
      - intros p' e Hp' [b Hb]. congruence.
      - intros i q Hq. exists q. split_and!; [done..|].
        intros -> (b & c & t & Hb & _). congruence. }
  assert (pkg_at y p st st) as Hat by done.
  mstep Hr u st1 Hu. unfold getCurrentKey in Hu.
  pose proof Hu as Hu'.
  apply getPackageVersion_Ok in Hu as (c & pu & Hc & Hs1 & Hinv1 & Hku & _); [|done].
  eapply pkg_at_node_step in Hat; [|exact Hs1].
  mstep Hr x st2 Hs2. destruct x.
  eapply pkg_at_update in Hat; [|exact Hs2].
  apply update_pkg_wire_step in Hs2; [|done].
  mstep Hr x st3 Hs3. destruct x.
  apply update_pv_node_step in Hs3 as [Hs3 _]; [|apply gentle_set_packageCurrent].
  eapply pkg_at_node_step in Hat; [|exact Hs3].
  mstep Hr current st4 Hcur. apply lift_Ok in Hcur as [Hcur ->].
  mstep Hr x st4 Hs4. destruct x.
  apply update_pv_node_step in Hs4 as [Hs4 _]; [|apply gentle_set_printName].
  eapply pkg_at_node_step in Hat; [|exact Hs4].
  mstep Hr b st5 Hb. unfold getBaseKey in Hb.
  assert (wire_step st st4) as Hw4.
  { eapply wire_step_trans; [by apply node_step_wire_step|].
    eapply wire_step_trans; [done|].
    eapply wire_step_trans; by apply node_step_wire_step. }
  destruct (Hw4 Hinv) as (Hinv4 & Hg4 & _).
  apply getPackageVersion_Ok in Hb as (bf & pb & Hbf & Hs5 & Hinv5 & _); [|done].
  eapply pkg_at_node_step in Hat; [|exact Hs5].
  mstep Hr x st6 Hs6. destruct x.
  eapply pkg_at_update in Hat; [|exact Hs6].
  apply update_pkg_wire_step in Hs6; [|done].
  mstep Hr x st7 Hs7. destruct x.
  apply update_pv_node_step in Hs7 as [Hs7 _]; [|apply gentle_set_packageBase].
  eapply pkg_at_node_step in Hat; [|exact Hs7].
  mstep Hr x st8 Hs8. destruct x.
  apply update_pv_node_step in Hs8 as [Hs8 _]; [|apply gentle_set_printName].
  eapply pkg_at_node_step in Hat; [|exact Hs8].
  assert (wire_step st1 st8) as Hw18.
  { eapply wire_step_trans; [exact Hs2|].
    eapply wire_step_trans; [by apply node_step_wire_step|].
    eapply wire_step_trans; [by apply node_step_wire_step|].
    eapply wire_step_trans; [by apply node_step_wire_step|].
    eapply wire_step_trans; [exact Hs6|].
    eapply wire_step_trans; by apply node_step_wire_step. }
  assert (wire_step st st8) as Hw8.
  { eapply wire_step_trans; [by apply node_step_wire_step|done]. }
  destruct (Hw8 Hinv) as (Hinv8 & _). destruct (Hw18 Hinv1) as (_ & Hg8 & _).
  mstep Hr t st9 Ht. unfold getTopKey in Ht. pose proof Ht as Ht'.
  apply getPackageVersion_Ok in Ht as (tf & pt & Htf & Hs9 & Hinv9 & _); [|done].
  eapply pkg_at_node_step in Hat; [|exact Hs9].
  mstep Hr x st10 Hs10. destruct x.
  eapply pkg_at_update in Hat; [|exact Hs10].
  apply update_pkg_wire_step in Hs10; [|done].
  mstep Hr x st11 Hs11. destruct x.
  apply update_pv_node_step in Hs11 as [Hs11 _]; [|apply gentle_set_packageTop].
  eapply pkg_at_node_step in Hat; [|exact Hs11].
  assert (wire_step st st11) as Hw11.
  { eapply wire_step_trans; [done|].
    eapply wire_step_trans; [by apply node_step_wire_step|].
    eapply wire_step_trans; [done|]. by apply node_step_wire_step. }
  destruct (Hw11 Hinv) as (Hinv11 & _).
  pose proof (for_each_recordPatchfile_pkgs _ _ _ Hinv11 Hr) as Hpk.
  apply for_each_recordPatchfile in Hr as [Hloop Hwired].
  split; [|split].
  - by apply (wire_step_trans st st11 st').
  - intros p' e Hp' _ He. simplify_eq. by apply Hwired.
  - destruct Hat as [Hy Hother]. rewrite <-Hpk in Hy, Hother.
    intros i q Hq. destruct (decide (i = y)) as [->|Hne].
    + simplify_eq. eexists. split; [done|]. split_and!; [done|done|].
      intros _ (b' & c' & t' & _ & Hc' & Ht'' & Hhash). simpl.
      split; [done|]. f_equal.
      rewrite Ht'' in Ht'. rewrite Hc' in Hc. injection Hc as <-.
      eapply getPackageVersion_found; [|exact Ht'].
      rewrite Hhash. destruct Hg8 as [Hk8 _]. by apply Hk8.
    + exists q. rewrite Hother by done. split_and!; [done..|]. by intros ->.
Qed.

Lemma strip_fields p p' :
  strip p' = strip p →
  patches p' = patches p ∧ baseFile p' = baseFile p ∧
  currentFile p' = currentFile p ∧ topFile p' = topFile p ∧
  anyChanges p' = anyChanges p ∧ doc p' = doc p ∧ patchVersion p' = patchVersion p ∧
  compressedFilename p' = compressedFilename p ∧
  contentsDocPackage p' = contentsDocPackage p.
Proof.
  intros Hs.
  split_and!;
    [change (patches (strip p') = patches (strip p))
    |change (baseFile (strip p') = baseFile (strip p))
    |change (currentFile (strip p') = currentFile (strip p))
    |change (topFile (strip p') = topFile (strip p))
    |change (anyChanges (strip p') = anyChanges (strip p))
    |change (doc (strip p') = doc (strip p))
    |change (patchVersion (strip p') = patchVersion (strip p))
    |change (compressedFilename (strip p') = compressedFilename (strip p))
    |change (contentsDocPackage (strip p') = contentsDocPackage (strip p))];
    by rewrite Hs.
Qed.

Lemma top_is_current_strip p p' :
  strip p' = strip p → top_is_current p → top_is_current p'.
Proof.
  intros (_ & Hb & Hc & Ht & _)%strip_fields (b & c & t & ? & ? & ? & ?).
  exists b, c, t. split_and!; congruence.
Qed.

Lemma for_each_buildPatchChains_body l : ∀ st st',
  intern_inv st → for_each l buildPatchChains_body st = Ok (tt, st') →
  (intern_inv st' ∧ grows st st' ∧ same_patches st st' ∧
   (∀ e, wired st e → wired st' e)) ∧
  (∀ y p e, y ∈ l → pkgs st !! y = Some p → is_Some (baseFile p) →
     e ∈ patches p → wired st' e) ∧
  (∀ i p, pkgs st !! i = Some p →
     ∃ p', pkgs st' !! i = Some p' ∧ strip p' = strip p ∧
           (top_is_current p →
            i ∈ l ∨ (is_Some (topPv p) ∧ topPv p = currentPv p) →
            is_Some (topPv p') ∧ topPv p' = currentPv p')).
Proof.
  induction l as [|y l IH]; intros st st' Hinv Hr; simpl in Hr.
  - injection Hr as <-. split; [|split].
    + by apply wire_step_refl.
    + by intros ? ? ? ?%elem_of_nil.
    + intros i p Hp. exists p. split_and!; [done..|].
      intros _ [?%elem_of_nil|?]; done.
  - mstep Hr x st1 Hy. destruct x.
    destruct (buildPatchChains_body_spec y st st1 Hinv Hy)
      as ((Hinv1 & Hg1 & Hs1 & Hw1) & Hnew1 & Hpk1).
    destruct (IH st1 st' Hinv1 Hr) as ((Hinv' & Hg' & Hs' & Hw') & Hnew' & Hpk').
    split; [|split].
    + split_and!; [done|by eapply grows_trans|by eapply same_patches_trans|by auto].
    + intros y' p e [->|Hy']%elem_of_cons Hp Hb He.
      * by eapply Hw', Hnew1.
      * destruct (Hpk1 _ _ Hp) as (p1 & Hp1 & Hstrip & _).
        destruct (strip_fields _ _ Hstrip) as (Hpat & Hbase & _).
        eapply (Hnew' y' p1); [done|done|by rewrite Hbase|by rewrite Hpat].
    + intros i p Hp.
      destruct (Hpk1 _ _ Hp) as (p1 & Hp1 & Hstrip1 & Hne & Heq).
      destruct (Hpk' _ _ Hp1) as (p' & Hp' & Hstrip' & Htop).
      exists p'. split_and!; [done|congruence|].
      intros Hcur Hcase. apply Htop; [by eapply top_is_current_strip|].
      destruct (decide (i = y)) as [->|Hiy]; [right; by apply Heq|].
      rewrite (Hne Hiy). destruct Hcase as [[->|Hil]%elem_of_cons|?]; [done|by left|by right].
Qed.

Lemma buildPatchChains_spec st st' :
  intern_inv st → buildPatchChains st = Ok (tt, st') →
  intern_inv st' ∧ same_patches st st' ∧
  (∀ y p e, y ∈ packages st' → pkgs st' !! y = Some p → is_Some (baseFile p) →
     e ∈ patches p → wired st' e) ∧
  (∀ i p, pkgs st !! i = Some p →
     ∃ p', pkgs st' !! i = Some p' ∧ strip p' = strip p ∧
           (top_is_current p → i ∈ packages st →
            is_Some (topPv p') ∧ topPv p' = currentPv p')).
Proof.
  intros Hinv Hr. unfold buildPatchChains in Hr.
  mstep Hr x st1 H1. injection H1 as _ <-.
  mstep Hr l st2 H2. injection H2 as <- <-. simpl in Hr.
  apply for_each_buildPatchChains_body in Hr
    as ((Hinv' & Hg' & [Hl' Hs'] & Hw') & Hnew' & Hpk'); [|by eapply intern_inv_same].
  simpl in *. split_and!; [done|by split| |].
  - intros y p e Hy Hp Hb He. rewrite Hl' in Hy.
    destruct (Hs' _ _ Hp) as (p0 & Hp0 & Hpat & Hbase).
    eapply (Hnew' y p0); [done|done|by rewrite <-Hbase|by rewrite <-Hpat].
  - intros i p Hp. destruct (Hpk' _ _ Hp) as (p' & Hp' & Hstrip & Htop).
    exists p'. split_and!; [done..|]. intros Hc Hi. apply Htop; [done|by left].
Qed.

(** *** Steps that only touch the world and the temporaries *)

Lemma mret_Ok {A} (a b : A) st st' : mret a st = Ok (b, st') → b = a ∧ st' = st.
Proof. by intros [= -> ->]. Qed.

Lemma temporary_node_step prefix st f st' :
  temporary prefix st = Ok (f, st') → node_step st st'.
Proof. intros [= _ <-]. by apply node_step_same. Qed.

Lemma call_node_step e f st b st' : call e f st = Ok (b, st') → node_step st st'.
Proof. intros [= _ <-]. by apply node_step_same. Qed.

Lemma unlink_node_step f st st' : unlink f st = Ok (tt, st') → node_step st st'.
Proof. intros [= <-]. by apply node_step_same. Qed.

Lemma log_node_step e st st' : log e st = Ok (tt, st') → node_step st st'.
Proof. intros [= <-]. by apply node_step_same. Qed.

Section world_steps.
Context `{Externals}.

Lemma applyPatch_node_step origFile patchFilename st r st' :
  applyPatch origFile patchFilename st = Ok (r, st') → node_step st st'.
Proof.
  unfold applyPatch. intros Hr.
  mstep Hr tmp st1 H1. apply temporary_node_step in H1.
  mstep Hr ok st2 H2. apply call_node_step in H2.
  assert (st' = st2) as ->.
  { destruct ok; by apply mret_Ok in Hr as [_ ->]. }
  by eapply node_step_trans.
Qed.

Lemma forPlan_node_step plan : ∀ prevFile st r st',
  forPlan plan prevFile st = Ok (r, st') → node_step st st'.
Proof.
  induction plan as [|[patchfile pv] plan IH]; intros prevFile st r st' Hr; simpl in Hr.
  - apply mret_Ok in Hr as [_ ->]. apply node_step_refl.
  - mstep Hr pf st0 H0. apply lift_Ok in H0 as [_ ->].
    mstep Hr package st0 H0. apply lift_Ok in H0 as [_ ->].
    mstep Hr file st0 H0. apply lift_Ok in H0 as [_ ->].
    mstep Hr tmp st1 H1. apply applyPatch_node_step in H1.
    destruct tmp as [tmp|].
    + mstep Hr x st2 H2. destruct x.
      apply update_pv_node_step in H2 as [H2 _]; [|apply gentle_set_tempFile].
      apply IH in Hr. eapply node_step_trans; [done|]. by eapply node_step_trans.
    + by apply mret_Ok in Hr as [_ ->].
Qed.

Lemma decompressStart_node_step startFile startPv st r st' :
  decompressStart startFile startPv st = Ok (r, st') → node_step st st'.
Proof.
  unfold decompressStart. case_decide as Hpz.
  - intros Hr. mstep Hr spv st0 H0. apply lift_Ok in H0 as [_ ->].
    destruct (tempFile spv); [done|].
    mstep Hr t st1 H1. apply temporary_node_step in H1.
    mstep Hr x st2 H2. destruct x.
    apply update_pv_node_step in H2 as [H2 _]; [|apply gentle_set_tempFile].
    mstep Hr ok st3 H3. apply call_node_step in H3.
    assert (st' = st3) as ->.
    { destruct ok; by apply mret_Ok in Hr as [_ ->]. }
    eapply node_step_trans; [done|]. by eapply node_step_trans.
  - intros [_ ->]%mret_Ok. apply node_step_refl.
Qed.

Lemma applyPlan_node_step self plan startFile st r st' :
  applyPlan self plan startFile st = Ok (r, st') → node_step st st'.
Proof.
  unfold applyPlan. destruct plan as [|x plan].
  - intros [_ ->]%mret_Ok. apply node_step_refl.
  - intros Hr. mstep Hr r' st1 H1. apply forPlan_node_step in H1.
    destruct r' as [prevFile|]; [|by apply mret_Ok in Hr as [_ ->]].
    mstep Hr me st0 H0. apply lift_Ok in H0 as [_ ->].
    case_decide as Hassert; [|done]. by apply mret_Ok in Hr as [_ ->].
Qed.

Lemma getFile_node_step self st r st' :
  getFile self st = Ok (r, st') → node_step st st'.
Proof.
  unfold getFile. intros Hr.
  mstep Hr plan st0 H0. apply lift_Ok in H0 as [_ ->].
  destruct plan as [[[startFile startPv] plan]|]; [|done].
  mstep Hr startFile' st1 H1. apply decompressStart_node_step in H1.
  destruct startFile' as [startFile'|].
  - apply applyPlan_node_step in Hr. by eapply node_step_trans.
  - by apply mret_Ok in Hr as [_ ->].
Qed.

Lemma buildPatchFile_node_step origFilename newFilename patchFilename st r st' :
  buildPatchFile origFilename newFilename patchFilename st = Ok (r, st') →
  node_step st st'.
Proof.
  unfold buildPatchFile. intros Hr.
  mstep Hr orig st0 H0. apply lift_Ok in H0 as [_ ->].
  mstep Hr there st0 H0. injection H0 as _ <-.
  destruct (negb there); [by apply mret_Ok in Hr as [_ ->]; apply node_step_refl|].
  mstep Hr x st1 H1. destruct x. apply unlink_node_step in H1.
  mstep Hr new st0 H0. apply lift_Ok in H0 as [_ ->].
  mstep Hr ok st2 H2. apply call_node_step in H2.
  destruct ok.
  - apply mret_Ok in Hr as [_ ->]. by eapply node_step_trans.
  - mstep Hr x st3 H3. destruct x. apply unlink_node_step in H3.
    apply mret_Ok in Hr as [_ ->].
    eapply node_step_trans; [done|]. by eapply node_step_trans.
Qed.

(** buildPatch, when it returns True, has appended one patchfile to the
    package and wired it; the wiring of all others is as it was. *)
Lemma buildPatch_spec v1 v2 package patchFilename st st' :
  intern_inv st → buildPatch v1 v2 package patchFilename st = Ok (true, st') →
  intern_inv st' ∧ (∀ e, wired st e → wired st' e) ∧
  ∃ p p' e, pkgs st !! package = Some p ∧ pkgs st' !! package = Some p' ∧
            patches p' = patches p ++ [e] ∧ anyChanges p' = true ∧ wired st' e.
Proof.
  intros Hinv Hr. unfold buildPatch in Hr.
  mstep Hr p st0 Hp. apply lift_Ok in Hp as [Hp ->].
  unfold lookup_pkg in Hp. destruct (pkgs st !! package) as [p0|] eqn:Hp0; [|done].
  injection Hp as ->.
  mstep Hr n1 st0 H0. apply lift_Ok in H0 as [_ ->].
  mstep Hr f1 st1 H1. apply getFile_node_step in H1.
  mstep Hr n2 st0 H0. apply lift_Ok in H0 as [_ ->].
  mstep Hr f2 st2 H2. apply getFile_node_step in H2.
  mstep Hr built st3 H3. apply buildPatchFile_node_step in H3.
  destruct built; simpl in Hr; [|by apply mret_Ok in Hr as [? _]].
  mstep Hr x st4 H4. destruct x. apply unlink_node_step in H4.
  mstep Hr ok st5 H5. apply call_node_step in H5.
  destruct ok; simpl in Hr; [|done].
  mstep Hr x st6 H6. destruct x. apply unlink_node_step in H6.
  mstep Hr pv1 st0 H0. apply lift_Ok in H0 as [_ ->].
  mstep Hr pv2 st0 H0. apply lift_Ok in H0 as [_ ->].
  assert (node_step st st6) as Hs6.
  { repeat (eapply node_step_trans; [eassumption|]). apply node_step_refl. }
  destruct Hs6 as (Hg6 & Hi6 & Hf6 & Hk6 & Hl6).
  mstep Hr e st7 H7. injection H7 as <- <-.
  mstep Hr x st8 H8. destruct x.
  apply update_pkg_Ok in H8 as (q & Hq & ->). simpl in Hq.
  mstep Hr x st9 H9. destruct x.
  apply update_pkg_Ok in H9 as (q' & Hq' & ->). simpl in Hq'.
  rewrite list_lookup_insert_eq in Hq' by (by eapply lookup_lt_Some).
  injection Hq' as <-.
  mstep Hr x st10 H10. destruct x. apply mret_Ok in Hr as [_ ->].
  rewrite Hk6, Hp0 in Hq. injection Hq as <-.
  apply recordPatchfile_spec in H10 as (Hinv' & Hg' & Hw' & Hf' & Hk' & Hl');
    [|eapply intern_inv_same; [..|by apply Hi6]; done].
  split_and!; [done| |].
  - intros e He. destruct (decide (e = length (pfs st6))) as [->|Hne]; [done|].
    eapply wired_grows; [exact Hg'|by apply Hf'|].
    eapply wired_grows; [|..|eapply wired_grows; [exact Hg6|by rewrite Hf6|exact He]].
    + by apply grows_same.
    + simpl. destruct He as (pf & _ & _ & _ & _ & _ & _ & Hpf & _).
      rewrite <-Hf6 in Hpf. by rewrite (lookup_app_l_Some _ _ _ _ Hpf).
  - eexists p, _, (length (pfs st6)). split_and!; [done| |..|done].
    + rewrite Hk'. simpl. rewrite list_insert_insert_eq.
      apply list_lookup_insert_eq. rewrite Hk6. by eapply lookup_lt_Some.
    + done.
    + done.
Qed.

End world_steps.

Lemma intern_inv_empty st : packageVersions st = ∅ → pvs st = [] → intern_inv st.
Proof. intros Hk Hp. split; intros ? ?; by rewrite ?Hk, ?Hp. Qed.

Lemma getPackageVersion_registered packageName platform version hostUrl f st a st1 :
  getPackageVersion (packageName, platform, version, hostUrl, Some f) st = Ok (a, st1) →
  packageVersions st1 !! (packageName, platform, version, hostUrl, hash f) = Some a.
Proof.
  unfold getPackageVersion, mbind, lift. simpl.
  destruct (packageVersions st !! _) as [i|] eqn:Hk; intros [= <- <-]; [done|].
  simpl. by rewrite lookup_insert_eq.
Qed.

(** C8: after buildPatchChains every patchfile of every package that has
    versions is wired: it is listed in its fromPv's toPatches and in its
    toPv's fromPatches, and the two nodes have the hashes of its source and
    target; a patchfile that buildPatch adds later is wired as well, and
    the wiring of the others stays. *)
Theorem edge_wiring `{Externals} (st st' : State) :
  intern_inv st → buildPatchChains st = Ok (tt, st') →
  (∀ y p e, y ∈ packages st' → pkgs st' !! y = Some p → is_Some (baseFile p) →
     e ∈ patches p → wired st' e) ∧
  (∀ v1 v2 y patchFilename st'',
     buildPatch v1 v2 y patchFilename st' = Ok (true, st'') →
     (∀ e, wired st' e → wired st'' e) ∧
     ∃ p' p'' e, pkgs st' !! y = Some p' ∧ pkgs st'' !! y = Some p'' ∧
                 patches p'' = patches p' ++ [e] ∧ wired st'' e).
Proof.
  intros Hinv Hr.
  destruct (buildPatchChains_spec st st' Hinv Hr) as (Hinv' & _ & Hw & _).
  split; [done|]. intros v1 v2 y patchFilename st'' Hb.
  destruct (buildPatch_spec v1 v2 y patchFilename st' st'' Hinv' Hb)
    as (_ & Hkeep & p' & p'' & e & ? & ? & ? & _ & ?).
  split; [done|]. by exists p', p'', e.
Qed.

Lemma edge_wiring_witness : wired session_S1_built 0.
Proof.
  assert (intern_inv session_S1) as Hinv
    by (apply intern_inv_empty; vm_compute; reflexivity).
  assert (buildPatchChains session_S1 = Ok (tt, session_S1_built)) as Hrun
    by (apply (run_after buildPatchChains session_S1 tt); vm_compute; reflexivity).
  eapply (proj1 (@edge_wiring working session_S1 session_S1_built Hinv Hrun) 0 _ 0).
  - vm_compute. apply list_elem_of_here.
  - vm_compute. reflexivity.
  - vm_compute. eauto.
  - vm_compute. apply list_elem_of_here.
Defined.

(** C9: after buildPatchChains two stored nodes with the same coordinates
    and the same file hash are one node, and two calls of getPackageVersion
    with keys that agree on coordinates and hash return the same node, the
    second without creating anything. *)
Theorem node_identity (st st' : State) :
  intern_inv st → buildPatchChains st = Ok (tt, st') →
  (∀ a b pa pb, pvs st' !! a = Some pa → pvs st' !! b = Some pb →
     pv_packageName pa = pv_packageName pb → pv_platform pa = pv_platform pb →
     pv_version pa = pv_version pb → pv_hostUrl pa = pv_hostUrl pb →
     hash (pv_file pa) = hash (pv_file pb) → a = b) ∧
  (∀ packageName platform version hostUrl f1 f2 a st1 b st2,
     hash f1 = hash f2 →
     getPackageVersion (packageName, platform, version, hostUrl, Some f1) st' = Ok (a, st1) →
     getPackageVersion (packageName, platform, version, hostUrl, Some f2) st1 = Ok (b, st2) →
     b = a ∧ st2 = st1).
Proof.
  intros Hinv Hr.
  destruct (buildPatchChains_spec st st' Hinv Hr) as ([_ Hk2] & _).
  split.
  - intros a b pa pb Ha Hb Hn Hp Hv Hh Hf.
    apply Hk2 in Ha, Hb. unfold key_of in Ha, Hb.
    rewrite Hn, Hp, Hv, Hh, Hf in Ha. congruence.
  - intros packageName platform version hostUrl f1 f2 a st1 b st2 Hf Ha Hb.
    apply getPackageVersion_registered in Ha. rewrite Hf in Ha.
    unfold getPackageVersion, mbind, lift in Hb. simpl in Hb.
    rewrite Ha in Hb. by injection Hb as <- <-.
Qed.

Lemma node_identity_witness :
  getPackageVersion (key_S1 "renamed.mf") session_S1_asked = Ok (0, session_S1_asked).
Proof.
  assert (intern_inv session_S1) as Hinv
    by (apply intern_inv_empty; vm_compute; reflexivity).
  assert (buildPatchChains session_S1 = Ok (tt, session_S1_built)) as Hrun
    by (apply (run_after buildPatchChains session_S1 tt); vm_compute; reflexivity).
  assert (getPackageVersion (key_S1 "pkg.mf") session_S1_built
          = Ok (0, session_S1_asked)) as Ha
    by (apply (run_after (getPackageVersion (key_S1 "pkg.mf")) session_S1_built 0);
        vm_compute; reflexivity).
  assert (getPackageVersion (key_S1 "renamed.mf") session_S1_asked
          = Ok (0, session_S1_again)) as Hb
    by (apply (run_after (getPackageVersion (key_S1 "renamed.mf")) session_S1_asked 0);
        vm_compute; reflexivity).
  pose proof (proj2 (node_identity session_S1 session_S1_built Hinv Hrun)
                (Some "p") None None None
                (mkFileSpec "pkg.mf" 20 "c") (mkFileSpec "renamed.mf" 20 "c")
                0 session_S1_asked 0 session_S1_again eq_refl Ha Hb) as [_ Heq].
  exact (eq_trans Hb (f_equal (λ s, Ok (0, s)) Heq)).
Defined.

(** ** buildPatchFile *)

Lemma buildPatchFile_missing `{Externals} (orig : Filename) newFilename patchFilename st :
  orig ∉ fs st →
  buildPatchFile (Some orig) newFilename patchFilename st = Ok (false, st).
Proof.
  intros Hno. unfold buildPatchFile, mbind, lift, exists_. simpl.
  by rewrite bool_decide_eq_false_2.
Qed.

(** C10, as stated, fails: when the original file does not exist,
    buildPatchFile returns False before it unlinks anything, and a file that
    was at the output path is still there. *)
Lemma buildPatchFile_keeps_stale_output :
  ¬ (∀ (E : Externals) origFilename newFilename patchFilename st st',
       @buildPatchFile E origFilename newFilename patchFilename st = Ok (false, st') →
       patchFilename ∉ fs st').
Proof.
  intros Hclaim.
  pose (out := Path "dir" "pkg.mf.2.patch").
  pose (st := set_fs (λ _, {[out]}) (newPatchMaker "install" ∅)).
  apply (Hclaim working (Some (Path "dir" "old")) (Some (Path "dir" "new")) out st st).
  - apply buildPatchFile_missing. simpl. by intros ?%elem_of_singleton.
  - simpl. by apply elem_of_singleton.
Qed.

(** C10, amended: buildPatchFile returns False in two ways.  When the
    original file does not exist it returns at once and leaves the state,
    the output path included, as it was.  When the delta engine fails, the
    output path was unlinked before the build and is unlinked again after
    it, and no file exists there afterwards. *)
Theorem buildPatchFile_false `{Externals} (origFilename newFilename : option Filename)
    (patchFilename : Filename) (st st' : State) :
  buildPatchFile origFilename newFilename patchFilename st = Ok (false, st') →
  ∃ orig, origFilename = Some orig ∧
    (((orig ∉ fs st) ∧ st' = st) ∨
     (orig ∈ fs st ∧ (patchFilename ∉ fs st') ∧
      ∃ new, newFilename = Some new ∧
        trace st' = trace st ++ [EvUnlink patchFilename;
                                 EvBuild orig new patchFilename;
                                 EvUnlink patchFilename])).
Proof.
  unfold buildPatchFile. intros Hr.
  mstep Hr orig st0 H0. apply lift_Ok in H0 as [Horig ->].
  destruct origFilename as [o|]; [|done]. injection Horig as ->.
  exists orig. split; [done|].
  mstep Hr there st0 H0. injection H0 as <- <-.
  destruct (decide (orig ∈ fs st)) as [Hin|Hout].
  - right. rewrite bool_decide_eq_true_2 in Hr by done. simpl in Hr.
    mstep Hr x st1 H1. destruct x. injection H1 as <-.
    mstep Hr new st0 H0. apply lift_Ok in H0 as [Hnew ->].
    destruct newFilename as [n|]; [|done]. injection Hnew as ->.
    mstep Hr ok st2 H2. injection H2 as <- <-.
    destruct (patch_build _ _ _ _) as [[|] w] eqn:Hbuild; simpl in Hr;
      [by apply mret_Ok in Hr as [? _]|].
    mstep Hr x st3 H3. destruct x. injection H3 as <-.
    apply mret_Ok in Hr as [_ ->]. simpl.
    split_and!; [done| |].
    { intros [_ Hn]%elem_of_difference. apply Hn. by apply elem_of_singleton. }
    exists new. split; [done|].
    by rewrite <-!app_assoc.
  - left. rewrite bool_decide_eq_false_2 in Hr by done. simpl in Hr.
    by apply mret_Ok in Hr as [_ ->].
Qed.

Lemma buildPatchFile_false_witness :
  ∃ orig, Some (Path "dir" "old") = Some orig ∧
    (((orig ∉ fs session_failed_build) ∧ session_failed_build' = session_failed_build) ∨
     (orig ∈ fs session_failed_build ∧
      (Path "dir" "pkg.mf.2.patch" ∉ fs session_failed_build') ∧
      ∃ new, Some (Path "dir" "new") = Some new ∧
        trace session_failed_build' =
        trace session_failed_build ++ [EvUnlink (Path "dir" "pkg.mf.2.patch");
                                       EvBuild orig new (Path "dir" "pkg.mf.2.patch");
                                       EvUnlink (Path "dir" "pkg.mf.2.patch")])).
Proof.
  apply (@buildPatchFile_false failing_build).
  apply (run_after (@buildPatchFile failing_build _ _ _) session_failed_build false).
  vm_compute. reflexivity.
Defined.

(** ** readDescFile *)

Lemma loadPatches_Ok package packageName platform version l : ∀ st rs st',
  loadPatches package packageName platform version l st = Ok (rs, st') →
  pkgs st' = pkgs st ∧ fs st' = fs st ∧ trace st' = trace st.
Proof.
  induction l as [|x l IH]; intros st rs st' Hr; simpl in Hr.
  - by apply mret_Ok in Hr as [_ ->].
  - mstep Hr r st1 H1. injection H1 as _ <-.
    mstep Hr rs' st2 H2. apply IH in H2 as (Hk & Hf & Ht).
    apply mret_Ok in Hr as [_ ->]. by rewrite Hk, Hf, Ht.
Qed.

Section readDescFile.
Context `{Externals}.

(** What readDescFile leaves in the package. *)
Lemma readDescFile_Ok self d doProcessing st b st' :
  readDescFile self (Some d) doProcessing st = Ok (b, st') →
  ∃ p0 p',
    pkgs st !! self = Some p0 ∧ pkgs st' !! self = Some p' ∧
    currentFile p' = d_uncompressed_archive d ∧
    topFile p' = match d_top_version d with
                 | Some top => Some top
                 | None => d_uncompressed_archive d
                 end ∧
    (∀ base, d_base_version d = Some base → baseFile p' = Some base) ∧
    (∀ v, truthy (d_patch_version d) = Some v →
       int v = Some (patchVersion p') ∧
       anyChanges p' = dirty_otherwise d doProcessing (patchVersion p')) ∧
    (truthy (d_patch_version d) = None →
       anyChanges p' = true ∧
       ∀ v, truthy (d_last_patch_version d) = Some v →
         ∃ n, int v = Some n ∧
              patchVersion p' = if isNewVersion d then (n + 1)%Z else n) ∧
    (renames d doProcessing (patchVersion p') = false →
     is_Some (d_base_version d) →
     fs st' = fs st ∧ trace st' = trace st).
Proof.
  unfold readDescFile. intros Hr.
  mstep Hr x st1 H1. destruct x. apply update_pkg_Ok in H1 as (p0 & Hp0 & ->).
  mstep Hr x st2 H2. destruct x. apply update_pkg_Ok in H2 as (p1 & Hp1 & ->).
  mstep Hr p st0 Hp. apply lift_Ok in Hp as [Hp ->].
  set (stA := set_pkgs _ (set_pkgs _ st)) in *.
  assert (fs stA = fs st ∧ trace stA = trace st) as [HfsA HtrA] by done.
  (* the top_version *)
  mstep Hr x1 st3 Htop. destruct x1 as [[topFile' isNew] any1].
  assert (st3 = stA ∧ any1 = isNewVersion d ∧ isNew = isNewVersion d ∧
          topFile' = match d_top_version d with
                     | Some top => Some top
                     | None => d_uncompressed_archive d
                     end) as (-> & -> & -> & ->).
  { unfold isNewVersion. destruct (d_top_version d) as [top|].
    - mstep Htop current st0 H0. apply lift_Ok in H0 as [Hcur ->].
      destruct (d_uncompressed_archive d) as [cur|]; [|done]. injection Hcur as ->.
      case_decide as Hh; apply mret_Ok in Htop as [[= -> -> ->] ->].
      + by rewrite bool_decide_eq_false_2 by (intros Hn; by apply Hn).
      + by rewrite bool_decide_eq_true_2.
    - by apply mret_Ok in Htop as [[= -> -> ->] ->]. }
  (* the patch version *)
  mstep Hr x2 st4 Hpv. destruct x2 as [pv any2].
  assert (st4 = stA ∧
          (∀ v, truthy (d_patch_version d) = Some v →
             int v = Some pv ∧ any2 = isNewVersion d) ∧
          (truthy (d_patch_version d) = None →
             any2 = true ∧
             ∀ v, truthy (d_last_patch_version d) = Some v →
               ∃ n, int v = Some n ∧
                    pv = if isNewVersion d then (n + 1)%Z else n))
    as (-> & Hpv1 & Hpv2).
  { destruct (truthy (d_patch_version d)) as [v|].
    - mstep Hpv n st0 H0. unfold pyint in H0. apply lift_Ok in H0 as [Hint ->].
      destruct (int v) as [n'|] eqn:Hv; [|done]. injection Hint as ->.
      apply mret_Ok in Hpv as [[= -> ->] ->].
      split_and!; [done| |done]. intros ? [= <-]. done.
    - destruct (truthy (d_last_patch_version d)) as [v|].
      + mstep Hpv n st0 H0. unfold pyint in H0. apply lift_Ok in H0 as [Hint ->].
        destruct (int v) as [n'|] eqn:Hv; [|done]. injection Hint as ->.
        apply mret_Ok in Hpv as [[= -> ->] ->].
        split_and!; [done|done|]. intros _. split; [done|].
        intros ? [= <-]. by exists n.
      + apply mret_Ok in Hpv as [[= -> ->] ->].
        split_and!; [done|done|]. intros _. split; [done|]. done. }
  (* the compressed archive *)
  mstep Hr x3 st5 Hc. destruct x3 as [[compressedFilename' xcompressed] any3].
  assert (any3 = any2 || renames d doProcessing pv ∧
          (renames d doProcessing pv = false →
           fs st5 = fs st ∧ trace st5 = trace st ∧ pkgs st5 = pkgs stA) ∧
          pkgs st5 = pkgs stA) as (-> & Hc1 & Hc2).
  { unfold renames. destruct (d_compressed_archive d) as [compressedFile|].
    2:{ apply mret_Ok in Hc as [[= -> -> ->] ->].
        by rewrite andb_false_r, orb_false_r. }
    destruct doProcessing; simpl.
    2:{ apply mret_Ok in Hc as [[= -> -> ->] ->]. by rewrite orb_false_r. }
    mstep Hc current st0 H0. apply lift_Ok in H0 as [Hcur ->].
    destruct (d_uncompressed_archive d) as [cur|]; [|done]. injection Hcur as ->.
    case_decide as Hname.
    - mstep Hc renamed st6 H6. injection H6 as _ <-.
      mstep Hc world st0 H0. injection H0 as _ <-.
      apply mret_Ok in Hc as [[= -> -> ->] ->].
      rewrite bool_decide_eq_true_2 by done. by rewrite orb_true_r.
    - apply mret_Ok in Hc as [[= -> -> ->] ->].
      rewrite bool_decide_eq_false_2 by (intros Hn; apply Hn, Hname).
      by rewrite orb_false_r. }
  (* the base_version *)
  mstep Hr x4 st6 Hb. destruct x4 as [baseFile' any4].
  assert (any4 = any2 || renames d doProcessing pv || bool_decide (d_base_version d = None) ∧
          (∀ base, d_base_version d = Some base → baseFile' = Some base ∧ st6 = st5) ∧
          pkgs st6 = pkgs stA) as (-> & Hb1 & Hb2).
  { destruct (d_base_version d) as [base|].
    - apply mret_Ok in Hb as [[= -> ->] ->].
      rewrite bool_decide_eq_false_2 by done. rewrite orb_false_r.
      split_and!; [done| |done]. by intros ? [= <-].
    - mstep Hb current st0 H0. apply lift_Ok in H0 as [_ ->].
      mstep Hb x st7 H7. destruct x.
      apply mret_Ok in Hb as [[= -> ->] ->].
      rewrite bool_decide_eq_true_2 by done. rewrite orb_true_r.
      split_and!; [done|done|].
      destruct (truthy compressedFilename') as [c|];
        [|by apply mret_Ok in H7 as [_ ->]].
      destruct doProcessing; [|by apply mret_Ok in H7 as [_ ->]].
      mstep H7 x st8 H8. injection H8 as _ <-.
      by apply mret_Ok in H7 as [_ ->]. }
  mstep Hr rs st7 Hl. apply loadPatches_Ok in Hl as (Hl1 & Hl2 & Hl3).
  mstep Hr x st8 H8. destruct x. apply update_pkg_Ok in H8 as (q & Hq & ->).
  apply mret_Ok in Hr as [-> ->].
  exists p0. eexists. split_and!.
  - done.
  - simpl. apply list_lookup_insert_eq. by eapply lookup_lt_Some.
  - done.
  - done.
  - intros base Hbase. simpl. by apply Hb1.
  - intros v Hv. simpl. destruct (Hpv1 v Hv) as [-> ->]. done.
  - intros Hnone. simpl. destruct (Hpv2 Hnone) as [-> Hlast]. done.
  - simpl. intros Hren [base Hbase].
    destruct (Hb1 _ Hbase) as [_ ->]. destruct (Hc1 Hren) as (<- & <- & _).
    by rewrite Hl2, Hl3.
Qed.

End readDescFile.

(** C5, as stated, fails: a descriptor without top_version gets the
    current file as its top, so the two hashes are equal, and yet
    last_patch_version 3 is incremented to 4. *)
Lemma readDescFile_increments_without_top_version :
  ¬ (∀ (E : Externals) self d doProcessing st st' p' v n top current,
       @readDescFile E self (Some d) doProcessing st = Ok (true, st') →
       pkgs st' !! self = Some p' →
       truthy (d_patch_version d) = None →
       truthy (d_last_patch_version d) = Some v → @int E v = Some n →
       topFile p' = Some top → currentFile p' = Some current →
       patchVersion p' = if bool_decide (hash top ≠ hash current) then (n + 1)%Z else n).
Proof.
  intros Hclaim.
  assert (4 = 3)%Z as Habsurd; [|done].
  apply (Hclaim working 0 descriptor_no_top false install session_no_top
           package_no_top "3" 3%Z (mkFileSpec "pkg.mf" 20 "c") (mkFileSpec "pkg.mf" 20 "c")).
  - apply (run_after (@readDescFile working 0 (Some descriptor_no_top) false) install true).
    vm_compute. reflexivity.
  - vm_compute. reflexivity.
  - reflexivity.
  - reflexivity.
  - reflexivity.
  - reflexivity.
  - reflexivity.
Qed.

(** C5, amended: a descriptor that carries a patch_version gives the
    package that value, and the package is marked as changed only for the
    other reasons (top_version, rename, base_version); otherwise a descriptor
    that carries last_patch_version gives that value, incremented by 1
    exactly when isNewVersion holds, that is when the descriptor has no
    top_version or one whose hash differs from the current hash, and the
    package is marked as changed. *)
Theorem readDescFile_patchVersion `{Externals} (self : nat) (d : Descriptor)
    (doProcessing : bool) (st : State) (b : bool) (st' : State) :
  readDescFile self (Some d) doProcessing st = Ok (b, st') →
  ∃ p', pkgs st' !! self = Some p' ∧
    (∀ v, truthy (d_patch_version d) = Some v →
       int v = Some (patchVersion p') ∧
       anyChanges p' = dirty_otherwise d doProcessing (patchVersion p')) ∧
    (truthy (d_patch_version d) = None →
     ∀ v, truthy (d_last_patch_version d) = Some v →
       ∃ n, int v = Some n ∧
            patchVersion p' = (if isNewVersion d then (n + 1)%Z else n) ∧
            anyChanges p' = true).
Proof.
  intros Hr.
  destruct (readDescFile_Ok self d doProcessing st b st' Hr)
    as (p0 & p' & _ & Hp' & _ & _ & _ & Hpv & Hlast & _).
  exists p'. split_and!; [done|done|].
  intros Hnone v Hv. destruct (Hlast Hnone) as [Hany Hn].
  destruct (Hn v Hv) as (n & Hint & Hp). by exists n.
Qed.

Lemma readDescFile_patchVersion_witness :
  ∃ p', pkgs session_no_top !! 0 = Some p' ∧
    (∀ v, truthy (d_patch_version descriptor_no_top) = Some v →
       decimal v = Some (patchVersion p') ∧
       anyChanges p' = dirty_otherwise descriptor_no_top false (patchVersion p')) ∧
    (truthy (d_patch_version descriptor_no_top) = None →
     ∀ v, truthy (d_last_patch_version descriptor_no_top) = Some v →
       ∃ n, decimal v = Some n ∧
            patchVersion p' = (if isNewVersion descriptor_no_top then (n + 1)%Z else n) ∧
            anyChanges p' = true).
Proof.
  apply (@readDescFile_patchVersion working 0 descriptor_no_top false install true).
  apply (run_after (@readDescFile working 0 (Some descriptor_no_top) false) install true).
  vm_compute. reflexivity.
Defined.

(** ** A publication without changes *)

(** C6: a package whose descriptor has a top_version with the hash of the
    current file, a patch_version, a base_version and a compressed archive
    that is already named [<currentFile.filename>.<patchVersion>.pz] is read
    without touching any file; after buildPatchChains, processPackage on it
    authors no edge and changes nothing, its anyChanges is False, and
    writeDescFile writes nothing: both leave the whole state as it is. *)
Theorem no_op_publication `{Externals} (d : Descriptor) (self : nat)
    (st0 st0' st1 st2 : State) (top current base compressed : FileSpec)
    (v : string) (n : Z) :
  d_top_version d = Some top → d_uncompressed_archive d = Some current →
  hash top = hash current →
  truthy (d_patch_version d) = Some v → int v = Some n →
  d_base_version d = Some base →
  d_compressed_archive d = Some compressed →
  filename compressed = filename current +:+ "." +:+ str n +:+ ".pz" →
  readDescFile self (Some d) true st0 = Ok (true, st0') →
  intern_inv st1 → self ∈ packages st1 → pkgs st1 !! self = pkgs st0' !! self →
  buildPatchChains st1 = Ok (tt, st2) →
  (fs st0' = fs st0 ∧ trace st0' = trace st0) ∧
  processPackage self st2 = Ok (tt, st2) ∧
  (∃ p, pkgs st2 !! self = Some p ∧ anyChanges p = false ∧ patchVersion p = n) ∧
  writeDescFile self st2 = Ok (tt, st2).
Proof.
  intros Htop Hcur Hhash Hv Hint Hbase Hcomp Hname Hread Hinv Hin Hsame Hbuild.
  destruct (readDescFile_Ok self d true st0 true st0' Hread)
    as (p0 & p & _ & Hp & Hpcur & Hptop & Hpbase & Hpv & _ & Hworld).
  destruct (Hpv v Hv) as [Hn Hany]. rewrite Hint in Hn. injection Hn as Hn.
  assert (isNewVersion d = false) as Hnew.
  { unfold isNewVersion. rewrite Htop, Hcur.
    apply bool_decide_eq_false_2. intros Hne. by apply Hne. }
  assert (renames d true (patchVersion p) = false) as Hren.
  { unfold renames. rewrite Hcomp, Hcur. simpl.
    apply bool_decide_eq_false_2. intros Hne. apply Hne. by rewrite <-Hn, Hname. }
  assert (anyChanges p = false) as Hclean.
  { rewrite Hany. unfold dirty_otherwise. rewrite Hnew, Hren, Hbase. done. }
  rewrite Htop in Hptop. rewrite Hcur in Hpcur.
  rewrite Hp in Hsame.
  destruct (buildPatchChains_spec st1 st2 Hinv Hbuild) as (_ & _ & _ & Hpk).
  destruct (Hpk _ _ Hsame) as (p' & Hp' & Hstrip & Hsamepv).
  destruct (strip_fields _ _ Hstrip) as (_ & Hb' & _ & _ & Hany' & _ & Hpv' & _).
  destruct Hsamepv as [_ Heq]; [|done|].
  { exists base, current, top. split_and!; [by apply Hpbase|done..]. }
  split_and!.
  - apply Hworld; [done|by rewrite Hbase].
  - apply Hworld; [done|by rewrite Hbase].
  - unfold processPackage, mbind, lift, lookup_pkg. rewrite Hp'.
    rewrite Hb', (Hpbase _ Hbase). by rewrite decide_False by (intros Hne; by apply Hne).
  - exists p'. split_and!; [done|congruence|congruence].
  - unfold writeDescFile, mbind, lift, lookup_pkg. rewrite Hp'.
    by rewrite Hany', Hclean.
Qed.

Lemma no_op_publication_witness :
  (fs session_S1 = fs install ∧ trace session_S1 = trace install) ∧
  @processPackage working 0 session_S1_built = Ok (tt, session_S1_built) ∧
  (∃ p, pkgs session_S1_built !! 0 = Some p ∧ anyChanges p = false ∧ patchVersion p = 3%Z) ∧
  @writeDescFile working 0 session_S1_built = Ok (tt, session_S1_built).
Proof.
  apply (@no_op_publication working descriptor_S1 0 install session_S1 session_S1
           session_S1_built (mkFileSpec "pkg.mf" 20 "c") (mkFileSpec "pkg.mf" 20 "c")
           (mkFileSpec "pkg.mf.base" 10 "b") (mkFileSpec "pkg.mf.3.pz" 8 "z") "3" 3%Z).
  - reflexivity.
  - reflexivity.
  - reflexivity.
  - reflexivity.
  - reflexivity.
  - reflexivity.
  - reflexivity.
  - vm_compute. reflexivity.
  - apply (run_after (@readDescFile working 0 (Some descriptor_S1) true) install true).
    vm_compute. reflexivity.
  - apply intern_inv_empty; vm_compute; reflexivity.
  - vm_compute. apply list_elem_of_here.
  - exact eq_refl.
  - apply (run_after buildPatchChains session_S1 tt). vm_compute. reflexivity.
Defined.

(** ** The graphs that PatchMaker builds are well formed *)

Lemma graph_wf_has_source st :
  graph_wf st ↔ ∀ t pv e, pvs st !! t = Some pv → e ∈ fromPatches pv → has_source st e.
Proof. done. Qed.

Lemma quiet_refl st : quiet st st.
Proof. split_and!; [done..|]. intros i pv Hpv. right. by exists pv. Qed.

Lemma quiet_trans st1 st2 st3 : quiet st1 st2 → quiet st2 st3 → quiet st1 st3.
Proof.
  intros (Hf1 & Hl1 & Hp1) (Hf2 & Hl2 & Hp2). split_and!; [congruence|lia|].
  intros i pv3 Hpv3. destruct (Hp2 _ _ Hpv3) as [?|(pv2 & Hpv2 & Heq2)]; [by left|].
  destruct (Hp1 _ _ Hpv2) as [?|(pv1 & Hpv1 & Heq1)]; [left; congruence|].
  right. exists pv1. split; [done|congruence].
Qed.

Lemma quiet_same st st' :
  pvs st' = pvs st → pfs st' = pfs st → quiet st st'.
Proof.
  intros Hp Hf. split_and!; [done|by rewrite Hp|].
  intros i pv Hpv. right. exists pv. by rewrite <-Hp.
Qed.

Lemma has_source_quiet st st' e : quiet st st' → has_source st e → has_source st' e.
Proof.
  intros (Hf & Hl & _) (pf & u & Hpf & Hu & Hlt). exists pf, u.
  split_and!; [by rewrite Hf|done|lia].
Qed.

Lemma graph_wf_quiet st st' : quiet st st' → graph_wf st → graph_wf st'.
Proof.
  intros Hq Hwf t pv' e Hpv' He.
  destruct Hq as (Hf & Hl & Hp).
  destruct (Hp _ _ Hpv') as [Hnil|(pv & Hpv & Heq)].
  - rewrite Hnil in He. by apply elem_of_nil in He.
  - rewrite Heq in He. destruct (Hwf _ _ _ Hpv He) as (pf & u & Hpf & Hu & Hlt).
    exists pf, u. split_and!; [by rewrite Hf|done|lia].
Qed.

Lemma update_pv_quiet r f st st' :
  (∀ pv, fromPatches (f pv) = fromPatches pv) →
  update_pv r f st = Ok (tt, st') → quiet st st'.
Proof.
  intros Hf (pv & Hpv & ->)%update_pv_Ok. split_and!; simpl.
  - done.
  - by rewrite length_insert.
  - intros i pv' Hpv'. right. destruct (decide (i = r)) as [->|Hne].
    + rewrite list_lookup_insert_eq in Hpv' by (by eapply lookup_lt_Some).
      injection Hpv' as <-. exists pv. by rewrite Hf.
    + rewrite list_lookup_insert_ne in Hpv' by done. by exists pv'.
Qed.

Lemma getPackageVersion_quiet key st u st' :
  getPackageVersion key st = Ok (u, st') → quiet st st'.
Proof.
  destruct key as [[[[packageName platform] version] hostUrl] file].
  unfold getPackageVersion. intros Hr.
  mstep Hr f st1 Hf. apply lift_Ok in Hf as [_ ->].
  destruct (packageVersions st !! _); injection Hr as _ <-; [apply quiet_refl|].
  split_and!; simpl.
  - done.
  - rewrite length_app. lia.
  - intros i pv' Hpv'. apply lookup_app_Some in Hpv' as [Hpv'|[_ Hpv']].
    + right. by exists pv'.
    + left. by apply list_lookup_singleton_Some in Hpv' as [_ <-].
Qed.

Lemma update_pf_graph_wf e f st st' :
  (∀ pf, fromPv (f pf) = fromPv pf ∨
         ∃ u, fromPv (f pf) = Some u ∧ u < length (pvs st)) →
  update_pf e f st = Ok (tt, st') →
  (graph_wf st → graph_wf st') ∧ (∀ e', has_source st e' → has_source st' e') ∧
  pvs st' = pvs st.
Proof.
  intros Hf (pf & Hpf & ->)%update_pf_Ok.
  assert (∀ e', has_source st e' →
    has_source (set_pfs (λ l, <[e:=f pf]> l) st) e') as Hkeep.
  { intros e' (pf' & u & Hpf' & Hu & Hlt). unfold has_source. simpl.
    destruct (decide (e' = e)) as [->|Hne].
    - rewrite list_lookup_insert_eq by (by eapply lookup_lt_Some).
      rewrite Hpf in Hpf'. injection Hpf' as <-.
      destruct (Hf pf) as [Heq|(u' & Hu' & Hlt')].
      + exists (f pf), u. split_and!; [done|congruence|done].
      + by exists (f pf), u'.
    - rewrite list_lookup_insert_ne by done. by exists pf', u. }
  split_and!; [|done|done].
  intros Hwf t pv e' Hpv He'. apply Hkeep. by eapply Hwf.
Qed.

Lemma update_pv_snoc_graph_wf t e st st' :
  update_pv t (λ pv, set_fromPatches (fromPatches pv ++ [e]) pv) st = Ok (tt, st') →
  has_source st e → graph_wf st → graph_wf st'.
Proof.
  intros (pv & Hpv & ->)%update_pv_Ok He Hwf t' pv' e' Hpv' He'. simpl in Hpv'.
  assert (has_source st e') as (pf & u & Hpf & Hu & Hlt).
  { destruct (decide (t' = t)) as [->|Hne].
    - rewrite list_lookup_insert_eq in Hpv' by (by eapply lookup_lt_Some).
      injection Hpv' as <-. simpl in He'.
      apply elem_of_app in He' as [He'|He']; [by eapply Hwf|].
      apply list_elem_of_singleton in He' as ->. done.
    - rewrite list_lookup_insert_ne in Hpv' by done. by eapply Hwf. }
  exists pf, u. split_and!; [done..|]. simpl. by rewrite length_insert.
Qed.

(** recordPatchfile keeps the graph well formed. *)
Lemma recordPatchfile_graph_wf e st st' :
  intern_inv st → graph_wf st → recordPatchfile e st = Ok (tt, st') → graph_wf st'.
Proof.
  intros Hinv Hwf Hr. unfold recordPatchfile in Hr.
  mstep Hr pf st0 Hpf. apply lift_Ok in Hpf as [Hpf ->].
  mstep Hr file st0 Hfile. apply lift_Ok in Hfile as [Hfile ->].
  mstep Hr x st1 Hst1. injection Hst1 as _ <-.
  mstep Hr u st2 Hu. pose proof (getPackageVersion_quiet _ _ _ _ Hu) as Hq2.
  apply getPackageVersion_Ok in Hu as (src & pu & Hsrc & Hstep2 & Hinv2 & _ & Hpu & _);
    [|by eapply intern_inv_same].
  apply (graph_wf_quiet _ st2) in Hwf;
    [|eapply quiet_trans; [|exact Hq2]; by apply quiet_same].
  mstep Hr x3 st3 Hst3. destruct x3.
  pose proof Hst3 as Hst3'.
  apply update_pf_Ok in Hst3' as (pf3 & Hpf3 & Hst3eq).
  apply update_pf_graph_wf in Hst3 as (Hwf3 & _ & Hp3).
  2:{ intros pf'. right. exists u. split; [done|]. by eapply lookup_lt_Some. }
  apply Hwf3 in Hwf.
  assert (has_source st3 e) as Hsrc3.
  { exists (set_fromPv (Some u) pf3), u. split_and!; [|done|].
    - rewrite Hst3eq. simpl. apply list_lookup_insert_eq. by eapply lookup_lt_Some.
    - rewrite Hp3. by eapply lookup_lt_Some. }
  mstep Hr x4 st4 Hst4. destruct x4.
  pose proof Hst4 as Hq4. apply update_pv_quiet in Hq4; [|done].
  apply update_pv_node_step in Hst4 as [Hstep4 _]; [|apply gentle_set_toPatches].
  assert (intern_inv st4) as Hinv4.
  { apply Hstep4. eapply intern_inv_same; [exact Hp3|..|exact Hinv2].
    rewrite Hst3eq. done. }
  mstep Hr t st5 Ht. pose proof (getPackageVersion_quiet _ _ _ _ Ht) as Hq5.
  assert (quiet st3 st5) as Hq35 by (by eapply quiet_trans).
  apply (graph_wf_quiet _ st5) in Hwf; [|done].
  apply (has_source_quiet _ st5) in Hsrc3; [|done].
  mstep Hr x6 st6 Hst6. destruct x6.
  apply update_pf_graph_wf in Hst6 as (Hwf6 & Hsrc6 & Hp6); [|by left].
  apply Hwf6 in Hwf. apply Hsrc6 in Hsrc3.
  mstep Hr x7 st7 Hst7. destruct x7.
  apply (update_pv_snoc_graph_wf _ _ _ _ Hst7 Hsrc3) in Hwf.
  apply update_pv_quiet in Hr; [|done].
  by eapply graph_wf_quiet.
Qed.

Lemma calm_refl st : calm st st.
Proof. split; [apply quiet_refl|done]. Qed.

Lemma calm_trans st1 st2 st3 : calm st1 st2 → calm st2 st3 → calm st1 st3.
Proof. intros [Hq1 Hi1] [Hq2 Hi2]. split; [by eapply quiet_trans|auto]. Qed.

Lemma calm_same st st' :
  pvs st' = pvs st → pfs st' = pfs st → packageVersions st' = packageVersions st →
  calm st st'.
Proof. intros Hp Hf Hk. split; [by apply quiet_same|by apply intern_inv_same]. Qed.

Lemma getPackageVersion_calm key st u st' :
  getPackageVersion key st = Ok (u, st') → calm st st'.
Proof.
  intros Hr. split; [by eapply getPackageVersion_quiet|]. intros Hinv.
  destruct key as [[[[packageName platform] version] hostUrl] file].
  by apply getPackageVersion_Ok in Hr as (_ & _ & _ & _ & ? & _).
Qed.

Lemma update_pv_calm r f st st' :
  gentle f → (∀ pv, fromPatches (f pv) = fromPatches pv) →
  update_pv r f st = Ok (tt, st') → calm st st'.
Proof.
  intros Hg Hf Hr. split; [by eapply update_pv_quiet|].
  by apply update_pv_node_step in Hr as [(_ & ? & _) _].
Qed.

Lemma update_pkg_calm r f st st' : update_pkg r f st = Ok (tt, st') → calm st st'.
Proof. intros (p & _ & ->)%update_pkg_Ok. by apply calm_same. Qed.

Lemma for_each_recordPatchfile_graph_wf l : ∀ st st',
  intern_inv st → graph_wf st → for_each l recordPatchfile st = Ok (tt, st') →
  intern_inv st' ∧ graph_wf st'.
Proof.
  induction l as [|e l IH]; intros st st' Hinv Hwf Hr; simpl in Hr.
  - by injection Hr as <-.
  - mstep Hr x st1 He. destruct x.
    pose proof (recordPatchfile_graph_wf e st st1 Hinv Hwf He) as Hwf1.
    destruct (recordPatchfile_spec e st st1 Hinv He) as (Hinv1 & _).
    by eapply IH.
Qed.

Lemma buildPatchChains_body_graph_wf y st st' :
  intern_inv st → graph_wf st → buildPatchChains_body y st = Ok (tt, st') →
  intern_inv st' ∧ graph_wf st'.
Proof.
  intros Hinv Hwf Hr. unfold buildPatchChains_body in Hr.
  mstep Hr p st0 Hp. apply lift_Ok in Hp as [_ ->].
  destruct (baseFile p) as [base|]; [|by injection Hr as <-].
  mstep Hr u st1 H1. apply getPackageVersion_calm in H1.
  mstep Hr x st2 H2. destruct x. apply update_pkg_calm in H2.
  mstep Hr x st3 H3. destruct x.
  apply update_pv_calm in H3; [|apply gentle_set_packageCurrent|done].
  mstep Hr current st0 H0. apply lift_Ok in H0 as [_ ->].
  mstep Hr x st4 H4. destruct x.
  apply update_pv_calm in H4; [|apply gentle_set_printName|done].
  mstep Hr b st5 H5. apply getPackageVersion_calm in H5.
  mstep Hr x st6 H6. destruct x. apply update_pkg_calm in H6.
  mstep Hr x st7 H7. destruct x.
  apply update_pv_calm in H7; [|apply gentle_set_packageBase|done].
  mstep Hr x st8 H8. destruct x.
  apply update_pv_calm in H8; [|apply gentle_set_printName|done].
  mstep Hr t st9 H9. apply getPackageVersion_calm in H9.
  mstep Hr x st10 H10. destruct x. apply update_pkg_calm in H10.
  mstep Hr x st11 H11. destruct x.
  apply update_pv_calm in H11; [|apply gentle_set_packageTop|done].
  assert (calm st st11) as [Hq Hi].
  { repeat (eapply calm_trans; [eassumption|]). apply calm_refl. }
  eapply for_each_recordPatchfile_graph_wf; [by apply Hi|by eapply graph_wf_quiet|done].
Qed.

Lemma for_each_body_graph_wf l : ∀ st st',
  intern_inv st → graph_wf st → for_each l buildPatchChains_body st = Ok (tt, st') →
  intern_inv st' ∧ graph_wf st'.
Proof.
  induction l as [|y l IH]; intros st st' Hinv Hwf Hr; simpl in Hr.
  - by injection Hr as <-.
  - mstep Hr x st1 Hy. destruct x.
    destruct (buildPatchChains_body_graph_wf y st st1 Hinv Hwf Hy) as [Hinv1 Hwf1].
    by eapply IH.
Qed.

Lemma graph_wf_empty st : pvs st = [] → graph_wf st.
Proof. intros Hp t pv e Hpv. by rewrite Hp in Hpv. Qed.

(** X1: buildPatchChains keeps the patch graph well formed: every patchfile
    listed in a node's fromPatches is stored and has a stored fromPv.  On the
    graph it builds, getPatchChain therefore returns for every stored
    target (it never reads an attribute of None). *)
Theorem buildPatchChains_graph_wf (st st' : State) :
  intern_inv st → graph_wf st → buildPatchChains st = Ok (tt, st') →
  graph_wf st' ∧
  ∀ target source, target < length (pvs st') →
    ∃ r, getPatchChain st' target source = Ok r.
Proof.
  intros Hinv Hwf Hr. unfold buildPatchChains in Hr.
  mstep Hr x st1 H1. injection H1 as _ <-.
  mstep Hr l st2 H2. injection H2 as <- <-.
  apply for_each_body_graph_wf in Hr as [_ Hwf'];
    [|by eapply intern_inv_same|by eapply graph_wf_quiet; [apply quiet_same|]].
  split; [done|]. intros target source Ht.
  destruct (getPatchChain_spec st' target source Hwf' (or_intror Ht)) as (r & Hr & _).
  by exists r.
Qed.

Lemma buildPatchChains_graph_wf_witness :
  graph_wf session_S1_built ∧
  ∀ target source, target < length (pvs session_S1_built) →
    ∃ r, getPatchChain session_S1_built target source = Ok r.
Proof.
  apply (buildPatchChains_graph_wf session_S1 session_S1_built).
  - apply intern_inv_empty; vm_compute; reflexivity.
  - apply graph_wf_empty. vm_compute. reflexivity.
  - apply (run_after buildPatchChains session_S1 tt). vm_compute. reflexivity.
Defined.

(** ** getFile when a collaborator fails *)

Section getFile_failures.
Context `{Externals}.

Lemma forPlan_apply_fails plan : ∀ prevFile st r st',
  (∀ patch orig dst w, (patch_apply patch orig dst w).1 = false) →
  plan ≠ [] → forPlan plan prevFile st = Ok (r, st') → r = None.
Proof.
  destruct plan as [|[patchfile pv] plan]; intros prevFile st r st' Hfail Hne Hr; [done|].
  simpl in Hr.
  mstep Hr pf st0 H0. apply lift_Ok in H0 as [_ ->].
  mstep Hr package st0 H0. apply lift_Ok in H0 as [_ ->].
  mstep Hr file st0 H0. apply lift_Ok in H0 as [_ ->].
  mstep Hr tmp st1 H1. unfold applyPatch in H1.
  mstep H1 t st2 H2. injection H2 as <- <-.
  mstep H1 ok st3 H3. injection H3 as <- <-.
  rewrite Hfail in H1. apply mret_Ok in H1 as [-> ->].
  by apply mret_Ok in Hr as [-> _].
Qed.

(** X2: when the delta engine cannot apply patches, getFile never returns
    a file for a node that has to be recreated by a non-empty plan: it
    returns None (or raises, when the store is damaged). *)
Theorem getFile_apply_failure (st : State) (self : nat) (startFile : Filename)
    (startPv : nat) (plan : list (nat * nat)) :
  (∀ patch orig dst w, (patch_apply patch orig dst w).1 = false) →
  getRecreateFilePlan st self = Ok (Some (startFile, startPv, plan)) → plan ≠ [] →
  value_of (getFile self st) = Some None ∨ value_of (getFile self st) = None.
Proof.
  intros Hfail Hplan Hne.
  destruct (getFile self st) as [[r st']| |] eqn:Hr; [|by right..].
  left. simpl. f_equal. unfold getFile in Hr.
  mstep Hr p st0 H0. apply lift_Ok in H0 as [Hp ->]. rewrite Hplan in Hp.
  injection Hp as <-.
  mstep Hr sf st1 H1. destruct sf as [sf|]; [|by apply mret_Ok in Hr as [-> _]].
  unfold applyPlan in Hr. destruct plan as [|x plan]; [done|].
  mstep Hr r' st2 H2. apply forPlan_apply_fails in H2 as ->; [|done..].
  by apply mret_Ok in Hr as [-> _].
Qed.

(** X3: getFile assigns startPv.tempFile before it decompresses.  When the
    decompression fails it returns None, but the node keeps the temporary
    name: the next getFile on that node returns the name of a file that was
    never written, and touches nothing. *)
Theorem getFile_failed_decompress (st : State) (self : nat) (startFile : Filename)
    (startPv : nat) (plan : list (nat * nat)) (r : option Filename) (st' : State) :
  getRecreateFilePlan st self = Ok (Some (startFile, startPv, plan)) →
  getExtension startFile = "pz" →
  (decompressFile startFile (Temporary "patch_" (tempCount st)) (fs st)).1 = false →
  getFile self st = Ok (r, st') →
  r = None ∧
  getFile startPv st' = Ok (Some (Temporary "patch_" (tempCount st)), st').
Proof.
  intros Hplan Hpz Hfail Hr. unfold getFile in Hr.
  mstep Hr p st0 H0. apply lift_Ok in H0 as [Hp ->]. rewrite Hplan in Hp.
  injection Hp as <-.
  mstep Hr sf st1 H1. unfold decompressStart in H1.
  rewrite decide_True in H1 by done.
  mstep H1 spv st0 H0. apply lift_Ok in H0 as [Hspv ->].
  destruct (tempFile spv); [done|].
  mstep H1 t st2 H2. injection H2 as <- <-.
  mstep H1 x st3 H3. destruct x. apply update_pv_Ok in H3 as (pv & Hpv & ->).
  mstep H1 ok st4 H4. injection H4 as <- <-. simpl in H1.
  rewrite Hfail in H1. apply mret_Ok in H1 as [-> ->].
  apply mret_Ok in Hr as [-> ->]. split; [done|].
  eapply getFile_cached;
    [simpl; apply list_lookup_insert_eq; by eapply lookup_lt_Some|done|done].
Qed.

End getFile_failures.

Lemma getFile_apply_failure_witness :
  value_of (@getFile failing_apply 2 session_S4) = Some None ∨
  value_of (@getFile failing_apply 2 session_S4) = None.
Proof.
  apply (@getFile_apply_failure failing_apply session_S4 2
           (Path "dir" "pkg.mf.base.pz") 0 [(0, 1); (1, 2)]).
  - done.
  - vm_compute. reflexivity.
  - done.
Defined.

Lemma getFile_failed_decompress_witness :
  @getFile failing_decompress 0 session_S4_failed
  = Ok (Some (Temporary "patch_" 0), session_S4_failed).
Proof.
  apply (@getFile_failed_decompress failing_decompress session_S4 2
           (Path "dir" "pkg.mf.base.pz") 0 [(0, 1); (1, 2)] None session_S4_failed).
  - vm_compute. reflexivity.
  - vm_compute. reflexivity.
  - reflexivity.
  - apply (run_after (@getFile failing_decompress 2) session_S4 None).
    vm_compute. reflexivity.
Defined.

(** ** Plans *)

Lemma forRecreateFilePlan_pick st rec self l : ∀ best r,
  forRecreateFilePlan st rec self l best = Ok (Some r) →
  best = Some r ∨
  ∃ e pf u startFile startPv plan,
    e ∈ l ∧ pfs st !! e = Some pf ∧ fromPv pf = Some u ∧
    rec u = Ok (Some (startFile, startPv, plan)) ∧
    r = (startFile, startPv, plan ++ [(e, self)]).
Proof.
  induction l as [|e l IH]; intros best r Hr; simpl in Hr.
  - left. congruence.
  - unfold lookup_pf in Hr. destruct (pfs st !! e) as [pf|] eqn:Hpf; [|done].
    simpl in Hr. destruct (fromPv pf) as [u|] eqn:Hu; [|done]. simpl in Hr.
    destruct (rec u) as [[[[startFile startPv] plan]|]| |] eqn:Hrec; simpl in Hr;
      [| |done..].
    + apply IH in Hr as [Hk|(e' & pf' & u' & sf & sp & pl & He' & ?)].
      * unfold keepShorterPlan in Hk. destruct best as [b|].
        -- case_decide; [|by left]. injection Hk as <-.
           right. exists e, pf, u, startFile, startPv, plan.
           split_and!; [by left|done..].
        -- injection Hk as <-. right. exists e, pf, u, startFile, startPv, plan.
           split_and!; [by left|done..].
      * right. exists e', pf', u', sf, sp, pl. split; [by right|done].
    + apply IH in Hr as [?|(e' & pf' & u' & sf & sp & pl & He' & ?)]; [by left|].
      right. exists e', pf', u', sf, sp, pl. split; [by right|done].
Qed.

Lemma getRecreateFilePlan_rec_sound st fuel : ∀ self V startFile startPv plan,
  getRecreateFilePlan_rec fuel st self V = Ok (Some (startFile, startPv, plan)) →
  anchor st startPv startFile ∧ plan_from st startPv self plan ∧
  ∀ e pv, (e, pv) ∈ plan → missing st pv.
Proof.
  induction fuel as [|fuel IH]; intros self V startFile startPv plan Hr; [done|].
  simpl in Hr. unfold lookup_pv in Hr.
  destruct (pvs st !! self) as [v|] eqn:Hv; [|done]. simpl in Hr.
  destruct (tempFile v) as [t|] eqn:Ht.
  { injection Hr as <- <- <-. split_and!; [|constructor|by intros ? ? ?%elem_of_nil].
    exists v. split; [done|]. by left. }
  case_decide as HV; [done|].
  unfold lookup_pkg in Hr.
  destruct (packageCurrent v) as [c|] eqn:Hc.
  { destruct (pkgs st !! c) as [p|] eqn:Hp; [|done]. simpl in Hr.
    destruct (compressedFilename p) as [name|] eqn:Hname; [|done].
    injection Hr as <- <- <-.
    split_and!; [|constructor|by intros ? ? ?%elem_of_nil].
    exists v. split; [done|]. right. left. split; [done|]. by exists c, p, name. }
  destruct (packageBase v) as [b|] eqn:Hb.
  { destruct (pkgs st !! b) as [p|] eqn:Hp; [|done]. simpl in Hr.
    destruct (baseFile p) as [base|] eqn:Hbase; [|done]. simpl in Hr.
    injection Hr as <- <- <-.
    split_and!; [|constructor|by intros ? ? ?%elem_of_nil].
    exists v. split; [done|]. right. right. split_and!; [done..|].
    by exists b, p, base. }
  apply forRecreateFilePlan_pick in Hr
    as [?|(e & pf & u & sf & sp & pl & He & Hpf & Hu & Hrec & Heq)]; [done|].
  injection Heq as -> -> ->.
  destruct (IH _ _ _ _ _ Hrec) as (Hanchor & Hfrom & Hmiss).
  split_and!; [done| |].
  - econstructor; [|done]. by exists v, pf.
  - intros e' pv [Hin|Hin]%elem_of_app; [by eapply Hmiss|].
    apply list_elem_of_singleton in Hin. injection Hin as -> ->.
    by exists v.
Qed.

(** X4: a plan of getRecreateFilePlan is sound: it starts at a node that
    has a file (its tempFile, or the archive of a package it is the current
    or the base of), its entries are patchfiles leading from that node to
    the requested one, each paired with the node it produces, and every
    node it recreates has neither a tempFile nor a package file. *)
Theorem getRecreateFilePlan_sound (st : State) (self : nat) (startFile : Filename)
    (startPv : nat) (plan : list (nat * nat)) :
  getRecreateFilePlan st self = Ok (Some (startFile, startPv, plan)) →
  anchor st startPv startFile ∧ plan_from st startPv self plan ∧
  ∀ e pv, (e, pv) ∈ plan → missing st pv.
Proof. apply getRecreateFilePlan_rec_sound. Qed.

Lemma getRecreateFilePlan_sound_witness :
  anchor session_S4 0 (Path "dir" "pkg.mf.base.pz") ∧
  plan_from session_S4 0 2 [(0, 1); (1, 2)] ∧
  ∀ e pv, (e, pv) ∈ [(0, 1); (1, 2)] → missing session_S4 pv.
Proof.
  apply (getRecreateFilePlan_sound session_S4 2). vm_compute. reflexivity.
Defined.

(** ** Temporaries are shared *)

Section temp_sharing.
Context `{Externals}.

Lemma applyPatch_Some origFile patchFilename st f st' :
  applyPatch origFile patchFilename st = Ok (Some f, st') →
  f = Temporary "patch_" (tempCount st) ∧ pvs st' = pvs st.
Proof.
  unfold applyPatch. intros Hr.
  mstep Hr t st1 H1. injection H1 as <- <-.
  mstep Hr ok st2 H2. injection H2 as <- <-.
  destruct (patch_apply _ _ _ _).1; apply mret_Ok in Hr as [Hf ->]; [|done].
  by injection Hf as ->.
Qed.

Lemma applyPatch_pvs origFile patchFilename st r st' :
  applyPatch origFile patchFilename st = Ok (r, st') → pvs st' = pvs st.
Proof.
  unfold applyPatch. intros Hr.
  mstep Hr t st1 H1. injection H1 as <- <-.
  mstep Hr ok st2 H2. injection H2 as <- <-.
  by destruct (patch_apply _ _ _ _).1; apply mret_Ok in Hr as [_ ->].
Qed.

Lemma has_temp_set st r v n i :
  pvs st !! r = Some v → has_temp st i →
  has_temp (set_pvs (λ l, <[r:=set_tempFile (Some (Temporary "patch_" n)) v]> l) st) i.
Proof.
  intros Hv (w & m & Hw & Ht). unfold has_temp. simpl.
  destruct (decide (i = r)) as [->|Hne].
  - eexists _, n. split; [apply list_lookup_insert_eq; by eapply lookup_lt_Some|done].
  - exists w, m. by rewrite list_lookup_insert_ne.
Qed.

Lemma forPlan_temps plan : ∀ prevFile st r st',
  forPlan plan prevFile st = Ok (r, st') →
  (∀ i, has_temp st i → has_temp st' i) ∧
  (is_Some r → ∀ e pv, (e, pv) ∈ plan → has_temp st' pv).
Proof.
  induction plan as [|[patchfile pv] plan IH]; intros prevFile st r st' Hr; simpl in Hr.
  - apply mret_Ok in Hr as [_ ->]. split; [done|]. by intros _ ? ? ?%elem_of_nil.
  - mstep Hr pf st0 H0. apply lift_Ok in H0 as [_ ->].
    mstep Hr package st0 H0. apply lift_Ok in H0 as [_ ->].
    mstep Hr file st0 H0. apply lift_Ok in H0 as [_ ->].
    mstep Hr tmp st1 H1. destruct tmp as [tmp|].
    + apply applyPatch_Some in H1 as [-> Hp1].
      mstep Hr x st2 H2. destruct x. apply update_pv_Ok in H2 as (v & Hv & ->).
      apply IH in Hr as [Hkeep Hall].
      assert (∀ i, has_temp st i →
        has_temp (set_pvs (λ l, <[pv:=set_tempFile
                    (Some (Temporary "patch_" (tempCount st))) v]> l) st1) i) as Hstep.
      { intros i (w & m & Hw & Ht). apply has_temp_set; [done|].
        exists w, m. by rewrite Hp1. }
      split; [by auto|].
      intros Hsome e pv' [Heq|Hin]%elem_of_cons; [|by eapply Hall].
      injection Heq as -> ->. apply Hkeep. unfold has_temp. simpl.
      eexists _, _. split; [apply list_lookup_insert_eq; by eapply lookup_lt_Some|done].
    + apply applyPatch_pvs in H1. apply mret_Ok in Hr as [-> ->].
      split; [|by intros [? ?]].
      intros i (w & m & Hw & Ht). exists w, m. by rewrite H1.
Qed.

(** X5: after getFile has recreated a file, every node on its plan has its
    own temporary: getFile on any of them returns a file at once and leaves
    the state as it is. *)
Theorem getFile_shares_temporaries (st : State) (self : nat) (startFile : Filename)
    (startPv : nat) (plan : list (nat * nat)) (f : Filename) (st' : State) :
  getRecreateFilePlan st self = Ok (Some (startFile, startPv, plan)) →
  getFile self st = Ok (Some f, st') →
  ∀ e pv, (e, pv) ∈ plan → ∃ t, getFile pv st' = Ok (Some t, st').
Proof.
  intros Hplan Hr e pv Hin. unfold getFile in Hr.
  mstep Hr p st0 H0. apply lift_Ok in H0 as [Hp ->]. rewrite Hplan in Hp.
  injection Hp as <-.
  mstep Hr sf st1 H1. destruct sf as [sf|]; [|by apply mret_Ok in Hr as [? _]].
  unfold applyPlan in Hr. destruct plan as [|x plan]; [by apply elem_of_nil in Hin|].
  mstep Hr r' st2 H2. destruct r' as [prevFile|]; [|by apply mret_Ok in Hr as [? _]].
  mstep Hr me st0 H0. apply lift_Ok in H0 as [_ ->].
  case_decide; [|done]. apply mret_Ok in Hr as [_ ->].
  apply forPlan_temps in H2 as [_ Hall].
  destruct (Hall (mk_is_Some _ _ eq_refl) e pv Hin) as (v & n & Hv & Ht).
  exists (Temporary "patch_" n). by eapply getFile_cached.
Qed.

End temp_sharing.

Lemma getFile_shares_temporaries_witness :
  ∃ t, @getFile working 1 session_S4_v2 = Ok (Some t, session_S4_v2).
Proof.
  apply (@getFile_shares_temporaries working session_S4 2
           (Path "dir" "pkg.mf.base.pz") 0 [(0, 1); (1, 2)] (Temporary "patch_" 2)
           session_S4_v2) with (e := 0).
  - vm_compute. reflexivity.
  - apply (run_after (@getFile working 2) session_S4). vm_compute. reflexivity.
  - apply list_elem_of_here.
Defined.
